(** * Photokiosk: the cart page (src/pages/Cart.tsx)

    A shallow embedding of the pricing and order logic of the cart page:
    [getItemPrice], the subtotal / tax / total of the order summary,
    [randomOrderNumber], the quantity button and [handlePlaceOrder].

    JavaScript numbers are IEEE 754 binary64 values.  They are modelled by
    the Standard Library's [spec_float] at precision 53 and maximal
    exponent 1024, and the arithmetic of the page by the library's
    correctly rounded operations on them. *)

From Stdlib Require Import ZArith QArith Qround List String Ascii Bool Lia SpecFloat.
Import ListNotations.

Local Open Scope Z_scope.

(** ** JavaScript numbers and the built-ins the page calls *)

Module JS.

Definition prec : Z := 53.
Definition emax : Z := 1024.

Definition number : Type := spec_float.

Definition NaN : number := S754_nan.
Definition zero : number := S754_zero false.

(** [x + y], [x - y], [x * y]. *)
Definition add (x y : number) : number := SFadd prec emax x y.
Definition sub (x y : number) : number := SFsub prec emax x y.
Definition mul (x y : number) : number := SFmul prec emax x y.

(** [x < y] and [x <= y]; false as soon as one side is NaN. *)
Definition lt (x y : number) : bool := SFltb x y.
Definition le (x y : number) : bool := SFleb x y.

(** The number written as an integer literal. *)
Definition of_Z (z : Z) : number := binary_normalize prec emax z 0 false.

(** The number nearest to the decimal [n / 10^f] (ties to even), signed by
    [neg]: what a decimal literal or a decimal string converts to.
    [SFdiv] rounds the exact quotient of the two integer mantissas. *)
Definition of_decimal (neg : bool) (n : Z) (f : nat) : number :=
  match n with
  | Zpos p =>
      SFdiv prec emax (S754_finite neg p 0)
                      (S754_finite false (Z.to_pos (10 ^ Z.of_nat f)) 0)
  | _ => S754_zero neg
  end.

(** A number is a binary64 value when its mantissa and exponent are in
    range; every number a JavaScript program holds is one. *)
Definition is_number (x : number) : Prop := valid_binary prec emax x = true.

Definition is_finite (x : number) : bool :=
  match x with
  | S754_zero _ | S754_finite _ _ _ => true
  | _ => false
  end.

(** The real value of a finite number, as a rational. *)
Definition Q_of (x : number) : Q :=
  match x with
  | S754_finite s m e =>
      if 0 <=? e then inject_Z (cond_Zopp s (Zpos m * 2 ^ e))
      else Qmake (cond_Zopp s (Zpos m)) (Z.to_pos (2 ^ (- e)))
  | _ => 0%Q
  end.

(** *** Completions: a built-in returns normally or throws *)

Inductive error := RangeError | SyntaxError | TypeError.

Inductive completion (A : Type) :=
| Normal (a : A)
| Throw (e : error).
Arguments Normal {A} a.
Arguments Throw {A} e.

Definition bind {A B} (c : completion A) (k : A -> completion B) : completion B :=
  match c with
  | Normal a => k a
  | Throw e => Throw e
  end.

Notation "x <- c ;; k" := (bind c (fun x => k))
  (at level 61, c at next level, right associativity).

(** *** [Number.prototype.toFixed] and the unary [+] on its result

    The string [toFixed] returns is kept in parsed form: which of the
    shapes of the ECMAScript algorithm it has, and the integer whose
    digits it shows. *)

Inductive NumberString :=
| Str_NaN                                   (* "NaN" *)
| Str_Infinity (neg : bool)                 (* "Infinity", "-Infinity" *)
| Str_Fixed (neg : bool) (n : Z) (f : nat)  (* sign, digits of n, point before the last f *)
| Str_ToString (neg : bool) (x : number).   (* sign, Number::toString of x >= 10^21 *)

(** Step 10 of [toFixed]: is [m * 2^e >= 10^21] ? *)
Definition ge_1e21 (m : positive) (e : Z) : bool :=
  if 0 <=? e then 10 ^ 21 <=? Zpos m * 2 ^ e
  else 10 ^ 21 * 2 ^ (- e) <=? Zpos m.

(** Step 11.a of [toFixed]: the integer [n] for which [n / 10^f - m * 2^e]
    is as close to zero as possible, the larger one when there are two. *)
Definition nearest_scaled (m : positive) (e : Z) (f : nat) : Z :=
  if 0 <=? e then Zpos m * 2 ^ e * 10 ^ Z.of_nat f
  else (2 * Zpos m * 10 ^ Z.of_nat f + 2 ^ (- e)) / (2 * 2 ^ (- e)).

Definition toFixed (x : number) (fractionDigits : Z) : completion NumberString :=
  if (fractionDigits <? 0) || (100 <? fractionDigits) then Throw RangeError
  else
    let f := Z.to_nat fractionDigits in
    match x with
    | S754_nan => Normal Str_NaN
    | S754_infinity s => Normal (Str_Infinity s)
    | S754_zero _ => Normal (Str_Fixed false 0 f)
    | S754_finite s m e =>
        if ge_1e21 m e then Normal (Str_ToString s (S754_finite false m e))
        else Normal (Str_Fixed s (nearest_scaled m e f) f)
    end.

(** Unary [+] on such a string (StringToNumber). *)
Definition ToNumber (s : NumberString) : number :=
  match s with
  | Str_NaN => S754_nan
  | Str_Infinity neg => S754_infinity neg
  | Str_Fixed neg n f => of_decimal neg n f
  | Str_ToString neg x => if neg then SFopp x else x
  end.

(** *** [Math.floor], [Math.max] *)

Definition Math_floor (x : number) : number :=
  match x with
  | S754_finite s m e =>
      if 0 <=? e then x
      else match cond_Zopp s (Zpos m) / 2 ^ (- e) with
           | 0 => S754_zero s
           | z => of_Z z
           end
  | _ => x
  end.

Definition Math_max (a b : number) : number :=
  match SFcompare a b with
  | None => S754_nan
  | Some Lt => b
  | Some Gt => a
  | Some Eq => match a with S754_zero true => b | _ => a end
  end.

(** *** [String.prototype.split] with a one-character separator *)

Fixpoint split (sep : ascii) (s : string) : list string :=
  match s with
  | EmptyString => [EmptyString]
  | String c rest =>
      if Ascii.eqb c sep then EmptyString :: split sep rest
      else match split sep rest with
           | seg :: segs => String c seg :: segs
           | [] => [String c EmptyString]
           end
  end.

(** *** [Set] of strings: the members in insertion order *)

Definition Set_add (s : list string) (x : string) : list string :=
  if in_dec string_dec x s then s else s ++ [x].

Definition new_Set (l : list string) : list string :=
  fold_left Set_add l [].

Definition Array_from (s : list string) : list string := s.

(** *** The values of a JSON text

    A string is the sequence of its code units; the type [string] holds
    the code units up to 255. *)

#[warnings="-register-all"]
Inductive value :=
| JSNull
| JSBoolean (b : bool)
| JSNumber (x : number)
| JSString (s : string)
| JSArray (elements : list value)
| JSObject (members : list (string * value)).

(** The comparison of [Set]: two numbers that are equal or both NaN, two
    equal strings, two equal booleans, null and null.  An array or an
    object is the same as itself only, and [JSON.parse] makes a new one
    for each bracket of the text. *)
Definition SameValueZero (x y : value) : bool :=
  match x, y with
  | JSNull, JSNull => true
  | JSBoolean a, JSBoolean b => Bool.eqb a b
  | JSNumber S754_nan, JSNumber S754_nan => true
  | JSNumber a, JSNumber b => SFeqb a b
  | JSString a, JSString b => String.eqb a b
  | _, _ => false
  end.

(** [Set.prototype.add] ([-0] is stored as [+0]) and [new Set(iterable)],
    the members in insertion order. *)
Definition Set_add_value (s : list value) (x : value) : list value :=
  if existsb (SameValueZero x) s then s
  else s ++ [match x with
             | JSNumber (S754_zero true) => JSNumber (S754_zero false)
             | _ => x
             end].

Definition new_Set_of_values (l : list value) : list value :=
  fold_left Set_add_value l [].

(** [...v] inside an array literal: the elements of an array, the
    characters of a string; the other values of a JSON text are not
    iterable. *)
Definition spread (v : value) : completion (list value) :=
  match v with
  | JSArray elements => Normal elements
  | JSString s =>
      Normal (map (fun c => JSString (String c EmptyString)) (list_ascii_of_string s))
  | _ => Throw TypeError
  end.

(** *** The [JSON] object

    [JSON.parse] returns the value a text denotes, or throws (a
    SyntaxError on a text that is not JSON); [JSON.stringify] returns the
    text of a value.  The page is verified for every such pair of
    functions: what a property needs of them is among its hypotheses. *)
Record JSONObject := {
  JSON_parse : string -> completion value;
  JSON_stringify : value -> string
}.

End JS.

Import JS.

(** ** Rounding to binary64, in integers *)

(** The record after [k >= 1] one-bit shifts of [M]. *)
Definition shifted (M k : Z) : shr_record :=
  {| shr_m := M / 2 ^ k;
     shr_r := Z.odd (M / 2 ^ (k - 1));
     shr_s := negb (M mod 2 ^ (k - 1) =? 0) |}.


(** [M / 2^n] rounded to the nearest integer, ties to the even one. *)
Definition rne (M n : Z) : Z :=
  let q := M / 2 ^ n in
  match 2 * (M mod 2 ^ n) ?= 2 ^ n with
  | Lt => q
  | Gt => q + 1
  | Eq => if Z.even q then q else q + 1
  end.


(** The result of a rounding whose mantissa [m1] (at most [2^53]) stands at
    exponent [e1]. *)
Definition pack (s : bool) (m1 e1 : Z) : number :=
  match m1 with
  | Zpos p =>
      if m1 <? 2 ^ 53 then
        if e1 <=? 971 then S754_finite s p e1 else S754_infinity s
      else
        if e1 + 1 <=? 971 then S754_finite s (Z.to_pos (m1 / 2)) (e1 + 1)
        else S754_infinity s
  | _ => S754_zero s
  end.


(** Values are compared as integers, on a common scale fine enough for
    every exponent that occurs. *)
Definition scale : Z := 2200.
Definition val (m e : Z) : Z := m * 2 ^ (e + scale).


(** The nearest integer to [q], ties away from zero: the rounding the
    specification calls round-half-away-from-zero. *)
Definition round_half_away (q : Q) : Z :=
  if Qle_bool 0 q then Qfloor (q + (1 # 2)) else - Qfloor (- q + (1 # 2)).

(** [N / K] rounded to the nearest integer, ties to the even one. *)
Definition rnd (N K : Z) : Z :=
  let q := N / K in
  match 2 * (N mod K) ?= K with
  | Lt => q
  | Gt => q + 1
  | Eq => if Z.even q then q else q + 1
  end.

(** ** The cart page *)

Local Open Scope string_scope.

Definition TAX_RATE : number := of_decimal false 825 4.   (* 0.0825 *)
Definition SHIPPING : number := of_decimal false 599 2.   (* 5.99 *)

Record PrintSize := { label : string; price : number }.

Record CartItem := {
  id : string;
  name : string;
  thumb : string;
  editInfo : option string;
  printSizes : list PrintSize;
  selectedSize : string;
  quantity : number
}.

(** Lines 18-21. *)
Definition getItemPrice (item : CartItem) : number :=
  let size := find (fun s => String.eqb (label s) (selectedSize item)) (printSizes item) in
  match size with
  | Some size => mul (price size) (quantity item)
  | None => zero
  end.

(** Lines 27-29, as a function of the value [Math.random()] returned. *)
Definition randomOrderNumber (random : number) : number :=
  Math_floor (add (of_Z 100000) (mul random (of_Z 900000))).

(** What [Math.random] can return: a number [r] with [0 <= r < 1]. *)
Definition is_random (r : number) : Prop :=
  is_number r /\ le zero r = true /\ lt r (of_Z 1) = true.

(** [+(x).toFixed(2)], the rounding of lines 36 and 37. *)
Definition round2 (x : number) : completion number :=
  s <- toFixed x 2 ;; Normal (ToNumber s).

(** Lines 35-37 of [Cart]. *)
Definition subtotal (cartItems : list CartItem) : number :=
  fold_left (fun sum item => add sum (getItemPrice item)) cartItems zero.

Definition tax (cartItems : list CartItem) : completion number :=
  round2 (mul (subtotal cartItems) TAX_RATE).

(** The shipping term of line 37 (and of line 167). *)
Definition shipping (cartItems : list CartItem) : number :=
  if (0 <? List.length cartItems)%nat then SHIPPING else zero.

Definition total (cartItems : list CartItem) : completion number :=
  tax <- tax cartItems ;;
  round2 (add (add (subtotal cartItems) tax) (shipping cartItems)).

Record OrderSummary := {
  summary_subtotal : number;
  summary_tax : number;
  summary_shipping : number;
  summary_total : number
}.

(** The four amounts the page derives on each render. *)
Definition summarize (cartItems : list CartItem) : completion OrderSummary :=
  t <- tax cartItems ;;
  tot <- total cartItems ;;
  Normal {| summary_subtotal := subtotal cartItems;
            summary_tax := t;
            summary_shipping := shipping cartItems;
            summary_total := tot |}.

(** Line 132: the quantity the "-" button hands to [updateCartItem]. *)
Definition decreaseQuantity (item : CartItem) : number :=
  Math_max (of_Z 1) (sub (quantity item) (of_Z 1)).

(** Line 43. *)
Definition sessionIdOf (item : CartItem) : string :=
  hd EmptyString (split "-"%char (id item)).

Definition sessionIds (cartItems : list CartItem) : list string :=
  Array_from (new_Set (map sessionIdOf cartItems)).

(** Line 46: the merge of the stored array with the cart's session ids. *)
Definition placeOrder (cartItems : list CartItem) (orderedSessions : list string)
  : list string :=
  Array_from (new_Set (orderedSessions ++ sessionIds cartItems)).

(** What [localStorage.getItem("orderedSessions")] returns: the text
    stored under the key, whoever wrote it, or [None] (null) when the key
    was never written. *)
Definition Storage : Type := option string.

(** An array of strings, as a value. *)
Definition strings (l : list string) : value := JSArray (map JSString l).

(** Lines 43-47: "Place Order" on a storage that holds [stored] under the
    key.  The result is what the key holds after line 47, or the
    exception that leaves the handler before it: the one [JSON.parse]
    throws at line 45, or the TypeError of spreading at line 46 a value
    that is not iterable.  An empty text is falsy and is not parsed.
    [setItem] is taken to accept the text (the storage has room for it);
    [clearCart], [alert] and [navigate] of lines 48-54 are not part of
    the model. *)
Definition handlePlaceOrder (JSON : JSONObject) (cartItems : list CartItem)
    (stored : Storage) : completion Storage :=
  let sessionIds := sessionIds cartItems in
  orderedSessions <-
    match stored with
    | None | Some EmptyString => Normal (JSArray [])
    | Some text => JSON_parse JSON text
    end ;;
  elements <- spread orderedSessions ;;
  let orderedSessions := new_Set_of_values (elements ++ map JSString sessionIds) in
  Normal (Some (JSON_stringify JSON (JSArray orderedSessions))).

(** *** Fixtures *)

Definition size_5x7 : PrintSize := {| label := "5x7"; price := of_Z 4 |}.
Definition size_8x10 : PrintSize := {| label := "8x10"; price := of_Z 9 |}.

Definition photo (i sel : string) (q : Z) : CartItem :=
  {| id := i; name := "photo"; thumb := "photo.jpg"; editInfo := None;
     printSizes := [size_5x7; size_8x10]; selectedSize := sel;
     quantity := of_Z q |}.

(** A cart item whose selected size is listed twice, at two prices. *)
Definition twice_listed : CartItem :=
  {| id := "s1-a"; name := "photo"; thumb := "photo.jpg"; editInfo := None;
     printSizes := [size_5x7; {| label := "5x7"; price := of_Z 6 |}];
     selectedSize := "5x7"; quantity := of_Z 1 |}.

(** Ten 4.00 prints and ten 9.00 prints: a subtotal of 130. *)
Definition ten_of_each : list CartItem :=
  [photo "s1-a" "5x7" 10; photo "s1-b" "8x10" 10].

(** The tax in cents in the words of the specification: the subtotal
    times 0.0825, rounded half away from zero to two decimals. *)
Definition spec_tax_cents (cartItems : list CartItem) : Z :=
  round_half_away (Q_of (subtotal cartItems) * (825 # 10000) * inject_Z 100).

(** The texts [["s0"]], [["s1"]] and [["s0","s1"]]. *)
Definition quote : string := String "034"%char EmptyString.
Definition text_s0 : string := "[" ++ quote ++ "s0" ++ quote ++ "]".
Definition text_s1 : string := "[" ++ quote ++ "s1" ++ quote ++ "]".
Definition text_s0_s1 : string :=
  "[" ++ quote ++ "s0" ++ quote ++ "," ++ quote ++ "s1" ++ quote ++ "]".

(** What [JSON.parse] and [JSON.stringify] return at the texts and at the
    arrays of the examples.  Every other text of the examples is not
    JSON, and no other array is written in them. *)
Definition JSON_of_examples : JSONObject :=
  {| JSON_parse := fun text =>
       if text =? "[]" then Normal (JSArray [])
       else if text =? text_s0 then Normal (JSArray [JSString "s0"])
       else if text =? text_s1 then Normal (JSArray [JSString "s1"])
       else if text =? text_s0_s1 then Normal (JSArray [JSString "s0"; JSString "s1"])
       else if text =? "5" then Normal (JSNumber (of_Z 5))
       else if text =? "null" then Normal JSNull
       else Throw SyntaxError;
     JSON_stringify := fun v =>
       match v with
       | JSArray [] => "[]"
       | JSArray [JSString "s0"] => text_s0
       | JSArray [JSString "s1"] => text_s1
       | JSArray [JSString "s0"; JSString "s1"] => text_s0_s1
       | _ => "null"
       end |}.

(** The segment of [i] before its first "-", in the words of the
    specification: [p] has no "-" and [i] is [p], or [p] followed by "-"
    and a rest. *)
Fixpoint no_dash (p : string) : Prop :=
  match p with
  | EmptyString => True
  | String c rest => c <> "-"%char /\ no_dash rest
  end.

Definition before_first_dash (p i : string) : Prop :=
  no_dash p /\ (i = p \/ exists rest, i = p ++ String "-" rest).

(** ** The other handlers and the rendering *)

(** Is [s] absent from [l] ? *)
Definition absent (l : list string) (s : string) : bool :=
  if in_dec string_dec s l then false else true.

(** Line 141: the quantity the "+" button hands to [updateCartItem]. *)
Definition increaseQuantity (item : CartItem) : number :=
  add (quantity item) (of_Z 1).

(** Modelled from the spec: the Cart Store's [updateCartItem(id, fields)]
    (CartContext, not among the sources) replaces the given fields of the
    item it names; here the item after a [{ quantity: q }] update. *)
Definition with_quantity (item : CartItem) (q : number) : CartItem :=
  {| id := id item; name := name item; thumb := thumb item;
     editInfo := editInfo item; printSizes := printSizes item;
     selectedSize := selectedSize item; quantity := q |}.

Definition pressMinus (item : CartItem) : CartItem :=
  with_quantity item (decreaseQuantity item).

Definition pressPlus (item : CartItem) : CartItem :=
  with_quantity item (increaseQuantity item).

(** The numbers of an item are binary64 values. *)
Definition valid_item (item : CartItem) : Prop :=
  is_number (quantity item) /\
  Forall (fun size => is_number (price size)) (printSizes item).

(** What the page shows: the empty-cart notice of lines 61-76, or the
    invoice; amounts are the strings [toFixed(2)] returns. *)
Record Invoice := {
  shown_count : nat;                  (* line 103 *)
  shown_prices : list NumberString;   (* line 151, one for each item *)
  shown_subtotal : NumberString;      (* line 165 *)
  shown_tax : NumberString;           (* line 166 *)
  shown_shipping : NumberString;      (* line 167 *)
  shown_total : NumberString          (* line 169 *)
}.

Inductive View :=
| EmptyCartView
| InvoiceView (invoice : Invoice).

(** [items.map(f)] for an [f] that may throw. *)
Fixpoint Array_map {A B} (f : A -> completion B) (l : list A) : completion (list B) :=
  match l with
  | [] => Normal []
  | x :: rest => y <- f x ;; ys <- Array_map f rest ;; Normal (y :: ys)
  end.

(** Lines 31-192, the amounts of the rendering. *)
Definition Cart (cartItems : list CartItem) : completion View :=
  tax <- tax cartItems ;;
  total <- total cartItems ;;
  if (List.length cartItems =? 0)%nat then Normal EmptyCartView
  else
    prices <- Array_map (fun item => toFixed (getItemPrice item) 2) cartItems ;;
    subtotal_shown <- toFixed (subtotal cartItems) 2 ;;
    tax_shown <- toFixed tax 2 ;;
    shipping_shown <-
      (if (0 <? List.length cartItems)%nat then toFixed SHIPPING 2
       else Normal (Str_Fixed false 0 2)) ;;
    total_shown <- toFixed total 2 ;;
    Normal (InvoiceView
              {| shown_count := List.length cartItems;
                 shown_prices := prices;
                 shown_subtotal := subtotal_shown;
                 shown_tax := tax_shown;
                 shown_shipping := shipping_shown;
                 shown_total := total_shown |}).

(** * Properties *)

(** ** Line prices *)

Lemma find_first_match (item : CartItem) (pre post : list PrintSize) (e : PrintSize) :
  printSizes item = (pre ++ e :: post)%list ->
  label e = selectedSize item ->
  (forall x, In x pre -> label x <> selectedSize item) ->
  find (fun s => String.eqb (label s) (selectedSize item)) (printSizes item) = Some e.
Proof.
  intros -> He Hpre.
  induction pre as [|x pre IH]; simpl.
  - rewrite He, String.eqb_refl. reflexivity.
  - destruct (String.eqb_spec (label x) (selectedSize item)) as [Hx|Hx].
    + exfalso. apply (Hpre x); [left; reflexivity | exact Hx].
    + apply IH. intros y Hy. apply Hpre. right. exact Hy.
Qed.

Lemma find_unique_label (sel : string) (sizes : list PrintSize) (e : PrintSize) :
  NoDup (map label sizes) -> In e sizes -> label e = sel ->
  find (fun s => String.eqb (label s) sel) sizes = Some e.
Proof.
  induction sizes as [|x sizes IH]; simpl; intros Hnd Hin He.
  - contradiction.
  - inversion Hnd as [|? ? Hx Hnd']; subst.
    destruct Hin as [->|Hin].
    + rewrite String.eqb_refl. reflexivity.
    + destruct (String.eqb_spec (label x) (label e)) as [Heq|Hne].
      * exfalso. apply Hx. rewrite Heq. apply in_map. exact Hin.
      * apply IH; auto.
Qed.

Lemma find_no_match (sel : string) (sizes : list PrintSize) :
  (forall e, In e sizes -> label e <> sel) ->
  find (fun s => String.eqb (label s) sel) sizes = None.
Proof.
  induction sizes as [|x sizes IH]; simpl; intros H.
  - reflexivity.
  - destruct (String.eqb_spec (label x) sel) as [Hx|Hx].
    + exfalso. apply (H x); auto.
    + apply IH. intros e He. apply H. auto.
Qed.

(** C1.  When the labels of [printSizes] are distinct (the data model's
    invariant) and an entry carries the selected label, [getItemPrice]
    is that entry's price times the quantity; whatever the labels, when
    some entry carries the selected label the result is the price of such
    an entry times the quantity; and when no entry carries it the result
    is 0. *)
Theorem getItemPrice_spec (item : CartItem) :
  (forall e, NoDup (map label (printSizes item)) ->
             In e (printSizes item) -> label e = selectedSize item ->
             getItemPrice item = mul (price e) (quantity item))
  /\ ((exists e, In e (printSizes item) /\ label e = selectedSize item) ->
      exists e, In e (printSizes item) /\ label e = selectedSize item /\
                getItemPrice item = mul (price e) (quantity item))
  /\ ((forall e, In e (printSizes item) -> label e <> selectedSize item) ->
      getItemPrice item = zero).
Proof.
  unfold getItemPrice. repeat split.
  - intros e Hnd Hin He.
    rewrite (find_unique_label _ _ e Hnd Hin He). reflexivity.
  - intros [e [Hin He]].
    destruct (find _ (printSizes item)) as [e'|] eqn:Hf.
    + exists e'. apply find_some in Hf. destruct Hf as [Hin' Hl].
      apply String.eqb_eq in Hl. auto.
    + exfalso. apply (find_none _ _ Hf) in Hin.
      rewrite He, String.eqb_refl in Hin. discriminate.
  - intros Hno. rewrite (find_no_match _ _ Hno). reflexivity.
Qed.

Lemma getItemPrice_spec_witness :
  getItemPrice (photo "s1-a" "5x7" 2) = mul (of_Z 4) (of_Z 2)
  /\ getItemPrice (photo "s1-a" "4x6" 2) = zero.
Proof.
  split.
  - apply (proj1 (getItemPrice_spec (photo "s1-a" "5x7" 2)) size_5x7).
    + simpl. repeat constructor; simpl; intuition discriminate.
    + simpl. auto.
    + reflexivity.
  - apply (proj2 (proj2 (getItemPrice_spec (photo "s1-a" "4x6" 2)))).
    simpl. intros e [<-|[<-|[]]]; simpl; discriminate.
Defined.

(** ** The order summary *)

Lemma round2_returns (x : number) : exists y, round2 x = Normal y.
Proof.
  unfold round2, toFixed. simpl.
  destruct x as [s|s| |s m e]; simpl; try (eexists; reflexivity).
  destruct (ge_1e21 m e); simpl; eexists; reflexivity.
Qed.

Lemma tax_returns (cartItems : list CartItem) : exists t, tax cartItems = Normal t.
Proof. apply round2_returns. Qed.

Lemma total_returns (cartItems : list CartItem) : exists t, total cartItems = Normal t.
Proof.
  unfold total. destruct (tax_returns cartItems) as [t ->]. simpl.
  apply round2_returns.
Qed.

Lemma summarize_returns (cartItems : list CartItem) :
  exists t tot,
    tax cartItems = Normal t /\ total cartItems = Normal tot /\
    summarize cartItems =
      Normal {| summary_subtotal := subtotal cartItems;
                summary_tax := t;
                summary_shipping := shipping cartItems;
                summary_total := tot |}.
Proof.
  destruct (tax_returns cartItems) as [t Ht].
  destruct (total_returns cartItems) as [tot Htot].
  exists t, tot. unfold summarize. rewrite Ht, Htot. auto.
Qed.

(** C5.  For a cart with at least one item the summary is produced and its
    shipping amount is the number 5.99, whatever the number of items; for
    the empty cart it is 0. *)
Theorem shipping_flat_fee (cartItems : list CartItem) :
  exists s, summarize cartItems = Normal s /\
    (cartItems <> [] -> summary_shipping s = of_decimal false 599 2) /\
    (cartItems = [] -> summary_shipping s = zero).
Proof.
  destruct (summarize_returns cartItems) as (t & tot & _ & _ & Hs).
  eexists. split; [exact Hs|]. simpl. unfold shipping. split.
  - destruct cartItems; [congruence | reflexivity].
  - intros ->. reflexivity.
Qed.

Lemma shipping_flat_fee_witness :
  exists s, summarize [photo "s1-a" "5x7" 2; photo "s1-b" "8x10" 3] = Normal s /\
            summary_shipping s = of_decimal false 599 2.
Proof.
  destruct (shipping_flat_fee [photo "s1-a" "5x7" 2; photo "s1-b" "8x10" 3])
    as (s & Hs & Hne & _).
  exists s. split; [exact Hs | apply Hne; discriminate].
Defined.

(** C6.  The summary of the empty cart is all zeros. *)
Theorem summarize_empty :
  summarize [] =
    Normal {| summary_subtotal := zero; summary_tax := zero;
              summary_shipping := zero; summary_total := zero |}.
Proof. vm_compute. reflexivity. Qed.

(** ** Session ids *)

Lemma split_not_nil (sep : ascii) (s : string) : split sep s <> [].
Proof.
  destruct s as [|c rest]; simpl; [discriminate|].
  destruct (Ascii.eqb c sep); [discriminate|].
  destruct (split sep rest); discriminate.
Qed.

Lemma first_segment_is_prefix (i : string) :
  before_first_dash (hd EmptyString (split "-"%char i)) i.
Proof.
  unfold before_first_dash.
  induction i as [|c rest IH]; simpl.
  - auto.
  - destruct (Ascii.eqb_spec c "-"%char) as [->|Hc]; simpl.
    + split; [exact I|]. right. exists rest. reflexivity.
    + pose proof (split_not_nil "-"%char rest) as Hnil.
      destruct (split "-"%char rest) as [|seg segs]; [congruence|].
      simpl in *. destruct IH as [Hnd Hdec]. split; [auto|].
      destruct Hdec as [->|[r ->]]; [left; reflexivity|].
      right. exists r. reflexivity.
Qed.

Lemma prefix_is_first_segment (p i : string) :
  before_first_dash p i -> p = hd EmptyString (split "-"%char i).
Proof.
  unfold before_first_dash. revert p.
  induction i as [|c rest IH]; intros p [Hnd Hdec].
  - destruct Hdec as [<-|[r Hr]]; [reflexivity|].
    destruct p; discriminate.
  - simpl. destruct p as [|d p'].
    + destruct Hdec as [Hd|[r Hr]]; [discriminate|].
      simpl in Hr. injection Hr as -> _. reflexivity.
    + simpl in Hnd. destruct Hnd as [Hd Hnd].
      assert (c = d /\ (rest = p' \/ exists r, rest = p' ++ String "-" r))
        as [-> Hrest].
      { destruct Hdec as [Heq|[r Hr]].
        - injection Heq as -> ->. auto.
        - simpl in Hr. injection Hr as -> ->. split; [reflexivity|].
          right. exists r. reflexivity. }
      destruct (Ascii.eqb_spec d "-"%char) as [Hdd|_]; [contradiction|].
      rewrite (IH p' (conj Hnd Hrest)).
      pose proof (split_not_nil "-"%char rest) as Hnil.
      destruct (split "-"%char rest); [congruence | reflexivity].
Qed.

Lemma Set_add_In (s : list string) (x y : string) :
  In y (Set_add s x) <-> In y s \/ y = x.
Proof.
  unfold Set_add. destruct (in_dec string_dec x s) as [Hin|Hin].
  - split; [auto|]. intros [H| ->]; assumption.
  - rewrite in_app_iff. simpl. intuition.
Qed.

Lemma Set_add_NoDup (s : list string) (x : string) :
  NoDup s -> NoDup (Set_add s x).
Proof.
  intros Hnd. unfold Set_add. destruct (in_dec string_dec x s) as [Hin|Hin].
  - exact Hnd.
  - apply NoDup_app; [exact Hnd | repeat constructor; intros [] | ].
    intros a Ha [<-|[]]. contradiction.
Qed.

Lemma fold_Set_add_In (l acc : list string) (y : string) :
  In y (fold_left Set_add l acc) <-> In y acc \/ In y l.
Proof.
  revert acc. induction l as [|x l IH]; intros acc; simpl.
  - intuition.
  - rewrite IH, Set_add_In. intuition.
Qed.

Lemma fold_Set_add_NoDup (l acc : list string) :
  NoDup acc -> NoDup (fold_left Set_add l acc).
Proof.
  revert acc. induction l as [|x l IH]; intros acc Hnd; simpl.
  - exact Hnd.
  - apply IH, Set_add_NoDup, Hnd.
Qed.

Lemma fold_Set_add_members (l acc : list string) :
  (forall x, In x l -> In x acc) -> fold_left Set_add l acc = acc.
Proof.
  induction l as [|x l IH]; intros Hsub; simpl.
  - reflexivity.
  - unfold Set_add at 2. destruct (in_dec string_dec x acc) as [Hin|Hin].
    + apply IH. intros y Hy. apply Hsub. right. exact Hy.
    + exfalso. apply Hin, Hsub. left. reflexivity.
Qed.

Lemma fold_Set_add_fresh (l acc : list string) :
  NoDup (acc ++ l) -> fold_left Set_add l acc = (acc ++ l)%list.
Proof.
  revert acc. induction l as [|x l IH]; intros acc Hnd; simpl.
  - symmetry. apply app_nil_r.
  - unfold Set_add at 2. destruct (in_dec string_dec x acc) as [Hin|Hin].
    + exfalso. apply NoDup_remove_2 in Hnd. apply Hnd.
      apply in_or_app. left. exact Hin.
    + replace (acc ++ x :: l)%list with ((acc ++ [x]) ++ l)%list in *
        by (rewrite <- app_assoc; reflexivity).
      apply IH. exact Hnd.
Qed.

Lemma new_Set_In (l : list string) (y : string) : In y (new_Set l) <-> In y l.
Proof. unfold new_Set. rewrite fold_Set_add_In. simpl. intuition. Qed.

Lemma new_Set_NoDup (l : list string) : NoDup (new_Set l).
Proof. apply fold_Set_add_NoDup. constructor. Qed.

Lemma new_Set_of_NoDup (l : list string) : NoDup l -> new_Set l = l.
Proof. intros Hnd. unfold new_Set. apply (fold_Set_add_fresh l []). exact Hnd. Qed.

Lemma sessionIds_In (cartItems : list CartItem) (s : string) :
  In s (sessionIds cartItems) <->
  exists item, In item cartItems /\ before_first_dash s (id item).
Proof.
  unfold sessionIds, Array_from. rewrite new_Set_In, in_map_iff.
  split; intros [item [H1 H2]]; exists item.
  - destruct H1. split; [exact H2 | apply first_segment_is_prefix].
  - split; [|exact H1]. symmetry. apply prefix_is_first_segment. exact H2.
Qed.

Lemma placeOrder_again (cartItems : list CartItem) (orderedSessions : list string) :
  placeOrder cartItems (placeOrder cartItems orderedSessions)
  = placeOrder cartItems orderedSessions.
Proof.
  unfold placeOrder, Array_from.
  set (merged := new_Set (orderedSessions ++ sessionIds cartItems)).
  unfold new_Set at 1. rewrite fold_left_app.
  fold (new_Set merged).
  rewrite (new_Set_of_NoDup merged) by apply new_Set_NoDup.
  apply fold_Set_add_members.
  intros x Hx. unfold merged. rewrite new_Set_In. apply in_or_app. right. exact Hx.
Qed.

Lemma placeOrder_NoDup (cartItems : list CartItem) (orderedSessions : list string) :
  NoDup (placeOrder cartItems orderedSessions).
Proof. unfold placeOrder, Array_from. apply new_Set_NoDup. Qed.

Lemma placeOrder_In (cartItems : list CartItem) (orderedSessions : list string) (s : string) :
  In s (placeOrder cartItems orderedSessions) <->
  In s orderedSessions \/
  exists item, In item cartItems /\ before_first_dash s (id item).
Proof.
  unfold placeOrder, Array_from.
  rewrite new_Set_In, in_app_iff, sessionIds_In. reflexivity.
Qed.

(** C3.  The array [placeOrder] returns has no repeated entry, and its
    members are exactly the members of the persisted array together with
    the prefixes (the segment before the first "-") of the items' ids. *)
Theorem placeOrder_union (cartItems : list CartItem) (orderedSessions : list string) :
  NoDup (placeOrder cartItems orderedSessions) /\
  forall s, In s (placeOrder cartItems orderedSessions) <->
            In s orderedSessions \/
            exists item, In item cartItems /\ before_first_dash s (id item).
Proof.
  unfold placeOrder, Array_from. split.
  - apply new_Set_NoDup.
  - intros s. rewrite new_Set_In, in_app_iff, sessionIds_In. reflexivity.
Qed.

(** ** The stored text *)

Lemma Set_add_value_string (s : list string) (x : string) :
  Set_add_value (map JSString s) (JSString x) = map JSString (Set_add s x).
Proof.
  unfold Set_add_value, Set_add.
  assert (H : existsb (SameValueZero (JSString x)) (map JSString s)
              = if in_dec string_dec x s then true else false).
  { induction s as [|y s IH]; [reflexivity|].
    cbn [map existsb SameValueZero]. rewrite IH.
    destruct (String.eqb_spec x y) as [->|Hxy].
    - destruct (in_dec string_dec y (y :: s)) as [|Hn]; [reflexivity|].
      exfalso. apply Hn. left. reflexivity.
    - cbn [orb]. destruct (in_dec string_dec x s) as [Hi|Hn];
        destruct (in_dec string_dec x (y :: s)) as [Hi'|Hn']; try reflexivity.
      + exfalso. apply Hn'. right. exact Hi.
      + exfalso. destruct Hi' as [Heq|Hi']; [apply Hxy; symmetry; exact Heq | exact (Hn Hi')]. }
  rewrite H. destruct (in_dec string_dec x s); [reflexivity|].
  rewrite map_app. reflexivity.
Qed.

Lemma new_Set_of_values_strings (l : list string) :
  new_Set_of_values (map JSString l) = map JSString (new_Set l).
Proof.
  unfold new_Set_of_values, new_Set.
  change (@nil value) with (map JSString []).
  generalize (@nil string) as acc.
  induction l as [|x l IH]; intros acc; [reflexivity|].
  cbn [map fold_left]. rewrite Set_add_value_string. apply IH.
Qed.

(** On a text that [JSON.parse] reads as an array of strings, the handler
    stores the text of [placeOrder]'s array. *)
Lemma handlePlaceOrder_strings (JSON : JSONObject) (cartItems : list CartItem)
    (stored : string) (orderedSessions : list string) :
  stored <> "" ->
  JSON_parse JSON stored = Normal (strings orderedSessions) ->
  handlePlaceOrder JSON cartItems (Some stored)
  = Normal (Some (JSON_stringify JSON (strings (placeOrder cartItems orderedSessions)))).
Proof.
  intros Hne Hparse. unfold handlePlaceOrder.
  destruct stored as [|c rest]; [congruence|].
  rewrite Hparse. unfold strings. cbn [bind spread].
  rewrite <- map_app, new_Set_of_values_strings. reflexivity.
Qed.

Lemma handlePlaceOrder_null (JSON : JSONObject) (cartItems : list CartItem) :
  handlePlaceOrder JSON cartItems None
  = Normal (Some (JSON_stringify JSON (strings (placeOrder cartItems [])))).
Proof.
  unfold handlePlaceOrder, strings. cbn [bind spread app].
  rewrite new_Set_of_values_strings. reflexivity.
Qed.

(** C4.  Placing the same cart against the array a first placement
    returned gives that array again, which has no repeated entry.  So
    for the handler: on a stored text that [JSON.parse] reads as the
    array, with a [JSON.parse] that reads back the text the handler
    writes, a second "Place Order" leaves the stored text as the first
    one wrote it. *)
Theorem placeOrder_idempotent (cartItems : list CartItem) (orderedSessions : list string) :
  let first := placeOrder cartItems orderedSessions in
  let second := placeOrder cartItems first in
  second = first /\ NoDup second /\ (forall s, In s second <-> In s first) /\
  forall (JSON : JSONObject) (stored : string),
    stored <> "" ->
    JSON_parse JSON stored = Normal (strings orderedSessions) ->
    let written := JSON_stringify JSON (strings first) in
    written <> "" ->
    JSON_parse JSON written = Normal (strings first) ->
    handlePlaceOrder JSON cartItems (Some stored) = Normal (Some written) /\
    handlePlaceOrder JSON cartItems (Some written) = Normal (Some written) /\
    (after <- handlePlaceOrder JSON cartItems (Some stored) ;;
     handlePlaceOrder JSON cartItems after)
    = handlePlaceOrder JSON cartItems (Some stored).
Proof.
  cbv zeta. rewrite placeOrder_again.
  split; [reflexivity|]. split; [apply placeOrder_NoDup|]. split; [reflexivity|].
  intros JSON stored Hstored Hparse Hwritten Hback.
  rewrite (handlePlaceOrder_strings JSON cartItems _ _ Hstored Hparse). cbn [bind].
  rewrite (handlePlaceOrder_strings JSON cartItems _ _ Hwritten Hback).
  rewrite placeOrder_again. repeat split; reflexivity.
Qed.

Lemma placeOrder_idempotent_witness :
  handlePlaceOrder JSON_of_examples [photo "s1-a" "5x7" 2] (Some text_s0)
  = Normal (Some text_s0_s1) /\
  handlePlaceOrder JSON_of_examples [photo "s1-a" "5x7" 2] (Some text_s0_s1)
  = Normal (Some text_s0_s1).
Proof.
  destruct (placeOrder_idempotent [photo "s1-a" "5x7" 2] ["s0"]) as (_ & _ & _ & H).
  destruct (H JSON_of_examples text_s0) as (H1 & H2 & _).
  - vm_compute. discriminate.
  - reflexivity.
  - vm_compute. discriminate.
  - reflexivity.
  - split; [exact H1 | exact H2].
Defined.

(** C10.  With nothing stored under the key, "Place Order" stores the
    distinct session-id prefixes of the cart's items and nothing else:
    the text of the array [written]. *)
Theorem handlePlaceOrder_nothing_stored (JSON : JSONObject) (cartItems : list CartItem) :
  exists written,
    handlePlaceOrder JSON cartItems None
    = Normal (Some (JSON_stringify JSON (strings written))) /\
    written = placeOrder cartItems [] /\
    NoDup written /\
    forall s, In s written <->
              exists item, In item cartItems /\ before_first_dash s (id item).
Proof.
  eexists. split; [apply handlePlaceOrder_null|]. split; [reflexivity|]. split.
  - apply placeOrder_NoDup.
  - intros s. rewrite placeOrder_In. simpl. intuition.
Qed.

Local Open Scope Z_scope.

(** ** Rounding to binary64 *)

Lemma digits2_pos_bounds (p : positive) :
  2 ^ (Zpos (digits2_pos p) - 1) <= Zpos p < 2 ^ Zpos (digits2_pos p).
Proof.
  induction p as [p IH|p IH|]; simpl digits2_pos.
  - rewrite Pos2Z.inj_succ, Z.pow_succ_r by lia.
    replace (Z.succ (Zpos (digits2_pos p)) - 1) with (Z.succ (Zpos (digits2_pos p) - 1)) by lia.
    rewrite Z.pow_succ_r by lia. lia.
  - rewrite Pos2Z.inj_succ, Z.pow_succ_r by lia.
    replace (Z.succ (Zpos (digits2_pos p)) - 1) with (Z.succ (Zpos (digits2_pos p) - 1)) by lia.
    rewrite Z.pow_succ_r by lia. lia.
  - simpl. lia.
Qed.

Lemma pow2_pos (k : Z) : 0 <= k -> 0 < 2 ^ k.
Proof. intros. apply Z.pow_pos_nonneg; lia. Qed.

Lemma pow2_lt_inv (a b : Z) : 0 <= b -> 2 ^ a < 2 ^ b -> a < b.
Proof.
  intros Hb H. destruct (Z_lt_ge_dec a b) as [|Hge]; [assumption|].
  exfalso. assert (2 ^ b <= 2 ^ a) by (apply Z.pow_le_mono_r; lia). lia.
Qed.

Lemma digits2_pos_unique (p : positive) (d : Z) :
  2 ^ (d - 1) <= Zpos p < 2 ^ d -> Zpos (digits2_pos p) = d.
Proof.
  intros [Hlo Hhi]. pose proof (digits2_pos_bounds p) as [Hlo' Hhi'].
  assert (0 < d).
  { destruct (Z_lt_ge_dec 0 d); [assumption|]. exfalso.
    destruct (Z.eq_dec d 0) as [->|]; [simpl in Hhi; lia|].
    rewrite Z.pow_neg_r in Hhi by lia. lia. }
  assert (d - 1 < Zpos (digits2_pos p)) by (apply pow2_lt_inv; lia).
  assert (Zpos (digits2_pos p) - 1 < d) by (apply pow2_lt_inv; lia).
  lia.
Qed.

Lemma shr_1_div2 (m : Z) (r s : bool) :
  0 <= m ->
  shr_1 {| shr_m := m; shr_r := r; shr_s := s |}
  = {| shr_m := m / 2; shr_r := Z.odd m; shr_s := r || s |}.
Proof.
  intros Hm. rewrite <- Z.div2_div.
  destruct m as [|[p|p|]|p]; try reflexivity. lia.
Qed.

Lemma shifted_first (M : Z) :
  0 <= M -> shr_1 {| shr_m := M; shr_r := false; shr_s := false |} = shifted M 1.
Proof.
  intros HM. rewrite shr_1_div2 by assumption. unfold shifted. simpl.
  rewrite Z.div_1_r, Z.mod_1_r. reflexivity.
Qed.

Lemma shifted_next (M k : Z) :
  0 <= M -> 1 <= k -> shr_1 (shifted M k) = shifted M (k + 1).
Proof.
  intros HM Hk. unfold shifted.
  assert (Hp : 0 < 2 ^ (k - 1)) by (apply pow2_pos; lia).
  rewrite shr_1_div2 by (apply Z.div_pos; [lia | apply pow2_pos; lia]).
  replace (k + 1 - 1) with k by lia.
  f_equal.
  - rewrite Z.pow_add_r by lia. rewrite Z.div_div by (try apply pow2_pos; lia).
    reflexivity.
  - replace (2 ^ k) with (2 ^ (k - 1) * 2)
      by (replace k with ((k - 1) + 1) at 2 by lia; rewrite Z.pow_add_r by lia; reflexivity).
    rewrite Z.rem_mul_r by lia.
    rewrite <- Z.bit0_odd, <- Z.bit0_mod.
    pose proof (Z.mod_pos_bound M (2 ^ (k - 1)) Hp).
    destruct (Z.testbit (M / 2 ^ (k - 1)) 0); simpl Z.b2z;
    destruct (Z.eqb_spec (M mod 2 ^ (k - 1)) 0);
    match goal with |- context [?a =? 0] => destruct (Z.eqb_spec a 0) end;
      simpl; try reflexivity; exfalso; nia.
Qed.

Lemma iter_pos_nat {A} (f : A -> A) (p : positive) (x : A) :
  iter_pos f p x = Nat.iter (Pos.to_nat p) f x.
Proof.
  revert x. induction p as [p IH|p IH|]; intros x; simpl iter_pos.
  - rewrite !IH, Pos2Nat.inj_xI. simpl Nat.iter.
    replace (Pos.to_nat p + (Pos.to_nat p + 0))%nat with (Pos.to_nat p + Pos.to_nat p)%nat by lia.
    rewrite Nat.iter_add. rewrite <- !Nat.iter_succ_r. simpl. 
    rewrite <- Nat.iter_succ_r. reflexivity.
  - rewrite !IH, Pos2Nat.inj_xO. simpl Nat.mul.
    replace (Pos.to_nat p + (Pos.to_nat p + 0))%nat with (Pos.to_nat p + Pos.to_nat p)%nat by lia.
    rewrite Nat.iter_add. reflexivity.
  - reflexivity.
Qed.

Lemma iter_shr_1 (M : Z) (n : nat) :
  0 <= M ->
  Nat.iter (S n) shr_1 {| shr_m := M; shr_r := false; shr_s := false |}
  = shifted M (Z.of_nat (S n)).
Proof.
  intros HM. induction n as [|n IH].
  - simpl Nat.iter. apply shifted_first. assumption.
  - change (Nat.iter (S (S n)) shr_1 ?x) with (shr_1 (Nat.iter (S n) shr_1 x)).
    rewrite IH, shifted_next by lia. f_equal. lia.
Qed.

Lemma rne_cases (M n : Z) :
  0 <= n ->
  exists q r, M = 2 ^ n * q + r /\ 0 <= r < 2 ^ n /\
    ((2 * r < 2 ^ n /\ rne M n = q) \/
     (2 * r = 2 ^ n /\ (rne M n = q \/ rne M n = q + 1)) \/
     (2 ^ n < 2 * r /\ rne M n = q + 1)).
Proof.
  intros Hn. pose proof (pow2_pos n Hn) as Hp.
  exists (M / 2 ^ n), (M mod 2 ^ n).
  split; [apply Z.div_mod; lia|].
  split; [apply Z.mod_pos_bound; lia|].
  unfold rne.
  destruct (Z.compare_spec (2 * (M mod 2 ^ n)) (2 ^ n)) as [H|H|H].
  - right. left. split; [exact H|]. destruct (Z.even _); auto.
  - left. auto.
  - right. right. auto.
Qed.

Lemma rne_0 (M : Z) : rne M 0 = M.
Proof.
  unfold rne. simpl (2 ^ 0). rewrite Z.mod_1_r, Z.div_1_r. reflexivity.
Qed.

Lemma rne_le (M n b : Z) :
  0 <= n -> 2 * M < (2 * b + 1) * 2 ^ n -> rne M n <= b.
Proof.
  intros Hn H. destruct (rne_cases M n Hn) as (q & r & HM & Hr & Hc).
  pose proof (pow2_pos n Hn). destruct Hc as [[? ->]|[[? [-> | ->]]|[? ->]]]; nia.
Qed.

Lemma rne_ge (M n b : Z) :
  0 <= n -> b * 2 ^ n <= M -> b <= rne M n.
Proof.
  intros Hn H. destruct (rne_cases M n Hn) as (q & r & HM & Hr & Hc).
  pose proof (pow2_pos n Hn). destruct Hc as [[? ->]|[[? [-> | ->]]|[? ->]]]; nia.
Qed.

Lemma rne_exact (M n b : Z) :
  0 <= n -> M = b * 2 ^ n -> rne M n = b.
Proof.
  intros Hn H. apply Z.le_antisymm.
  - apply rne_le; [assumption|]. pose proof (pow2_pos n Hn). nia.
  - apply rne_ge; [assumption|]. lia.
Qed.

Lemma shr_rne (M E : Z) (p : positive) :
  0 <= M ->
  let mrs := fst (shr {| shr_m := M; shr_r := false; shr_s := false |} E (Zpos p)) in
  round_nearest_even (shr_m mrs) (loc_of_shr_record mrs) = rne M (Zpos p).
Proof.
  intros HM. unfold shr. cbn [fst]. rewrite iter_pos_nat.
  destruct (Pos2Nat.is_succ p) as [k Hk]. rewrite Hk, iter_shr_1 by assumption.
  rewrite <- Hk, positive_nat_Z.
  assert (Hn : 1 <= Zpos p) by lia. revert Hn. generalize (Zpos p). intros n Hn.
  unfold shifted, rne. cbn [shr_m].
  assert (Hh : 0 < 2 ^ (n - 1)) by (apply pow2_pos; lia).
  assert (H2 : 2 ^ n = 2 ^ (n - 1) * 2)
    by (replace n with ((n - 1) + 1) at 1 by lia; rewrite Z.pow_add_r by lia; reflexivity).
  rewrite H2 at 2 3. rewrite Z.rem_mul_r by lia.
  rewrite <- Z.bit0_odd, <- Z.bit0_mod.
  pose proof (Z.mod_pos_bound M (2 ^ (n - 1)) Hh) as Hlow.
  generalize dependent (M mod 2 ^ (n - 1)). intros low Hlow.
  generalize (M / 2 ^ n). intros q.
  generalize dependent (2 ^ (n - 1)). intros h Hh H2 Hlow.
  destruct (Z.testbit (M / h) 0); cbn [Z.b2z];
    destruct (Z.eqb_spec low 0) as [H0|H0];
    cbn [negb loc_of_shr_record round_nearest_even];
    match goal with |- context [?a ?= ?b] => destruct (Z.compare_spec a b) end;
    try reflexivity; try (exfalso; nia).
Qed.

Lemma fexp_eq (e : Z) : fexp prec emax e = Z.max (e - 53) (-1074).
Proof. reflexivity. Qed.

Lemma shr_nonpos (mrs : shr_record) (e n : Z) : n <= 0 -> shr mrs e n = (mrs, e).
Proof. destruct n; [reflexivity | lia | reflexivity]. Qed.

Lemma binary_round_aux_pack (s : bool) (M : positive) (E : Z) :
  let e1 := fexp prec emax (Zpos (digits2_pos M) + E) in
  E <= e1 ->
  binary_round_aux prec emax s (Zpos M) E loc_Exact = pack s (rne (Zpos M) (e1 - E)) e1
  /\ 0 <= rne (Zpos M) (e1 - E) <= 2 ^ 53.
Proof.
  intros e1 Hpre.
  pose proof (digits2_pos_bounds M) as [Hlo Hhi].
  set (d := Zpos (digits2_pos M)) in *.
  assert (He1 : e1 = Z.max (d + E - 53) (-1074)) by reflexivity.
  set (n := e1 - E). assert (Hn : 0 <= n) by (unfold n; lia).
  assert (Hm1 : 0 <= rne (Zpos M) n <= 2 ^ 53).
  { split.
    - apply rne_ge; [assumption | lia].
    - apply rne_le; [assumption|].
      assert (2 ^ d <= 2 ^ (53 + n)) by (apply Z.pow_le_mono_r; lia).
      rewrite Z.pow_add_r in H by lia. pose proof (pow2_pos n Hn). nia. }
  split; [|exact Hm1].
  unfold binary_round_aux, shr_fexp. simpl Zdigits2. fold d. fold e1. fold n.
  simpl shr_record_of_loc.
  assert (Hfst : shr {| shr_m := Zpos M; shr_r := false; shr_s := false |} E n
                 = (fst (shr {| shr_m := Zpos M; shr_r := false; shr_s := false |} E n), e1)).
  { destruct n as [|p|p] eqn:Hnp; simpl; f_equal; unfold n in Hnp; lia. }
  rewrite Hfst.
  assert (Hr : round_nearest_even
                 (shr_m (fst (shr {| shr_m := Zpos M; shr_r := false; shr_s := false |} E n)))
                 (loc_of_shr_record (fst (shr {| shr_m := Zpos M; shr_r := false; shr_s := false |} E n)))
               = rne (Zpos M) n).
  { destruct n as [|p|p] eqn:Hnp.
    - simpl. rewrite rne_0. reflexivity.
    - apply shr_rne. lia.
    - lia. }
  rewrite Hr. clear Hr Hfst.
  set (m1 := rne (Zpos M) n) in *.
  destruct m1 as [|p1|p1] eqn:Hp1.
  - (* rounded to zero *)
    simpl Zdigits2. rewrite shr_nonpos by (rewrite fexp_eq; lia). reflexivity.
  - pose proof (digits2_pos_bounds p1) as [Hlo1 Hhi1].
    simpl Zdigits2. unfold pack.
    destruct (Z.ltb_spec (Zpos p1) (2 ^ 53)) as [Hlt|Hge].
    + assert (Zpos (digits2_pos p1) <= 53).
      { assert (Zpos (digits2_pos p1) - 1 < 53) by (apply pow2_lt_inv; lia). lia. }
      rewrite shr_nonpos by (rewrite fexp_eq; lia). reflexivity.
    + assert (Heq : Zpos p1 = 2 ^ 53) by lia.
      assert (Hd : Zpos (digits2_pos p1) = 54)
        by (apply digits2_pos_unique; rewrite Heq; simpl; lia).
      rewrite Hd.
      replace (fexp prec emax (54 + e1) - e1) with 1 by (rewrite fexp_eq; lia).
      injection Heq as ->. reflexivity.
  - lia.
Qed.

Lemma pow2_split (a b : Z) : 0 <= a -> 0 <= b -> 2 ^ (a + b) = 2 ^ a * 2 ^ b.
Proof. intros. apply Z.pow_add_r; assumption. Qed.

Lemma bounded_inv (m : positive) (e : Z) :
  bounded prec emax m e = true ->
  Zpos m < 2 ^ 53 /\ -1074 <= e <= 971 /\ (2 ^ 52 <= Zpos m \/ e = -1074).
Proof.
  unfold bounded, canonical_mantissa. rewrite andb_true_iff, Z.eqb_eq, Z.leb_le, fexp_eq.
  intros [Hc He]. pose proof (digits2_pos_bounds m) as [Hlo Hhi].
  set (d := Zpos (digits2_pos m)) in *.
  assert (Hd : d <= 53) by lia.
  assert (2 ^ d <= 2 ^ 53) by (apply Z.pow_le_mono_r; lia).
  split; [lia|]. split; [unfold emax, prec in He; lia|].
  destruct (Z.eq_dec e (-1074)) as [|Hne]; [right; assumption|left].
  assert (d = 53) by lia. subst d. rewrite H0 in Hlo. exact Hlo.
Qed.

Lemma bounded_intro (m : positive) (e : Z) :
  Zpos m < 2 ^ 53 -> -1074 <= e <= 971 -> (2 ^ 52 <= Zpos m \/ e = -1074) ->
  bounded prec emax m e = true.
Proof.
  intros Hm He Hc. unfold bounded, canonical_mantissa.
  rewrite andb_true_iff, Z.eqb_eq, Z.leb_le, fexp_eq. split; [|unfold emax, prec; lia].
  pose proof (digits2_pos_bounds m) as [Hlo Hhi].
  assert (Zpos (digits2_pos m) - 1 < 53) by (apply pow2_lt_inv; lia).
  destruct Hc as [Hc| ->]; [|lia].
  assert (52 < Zpos (digits2_pos m)) by (apply pow2_lt_inv; lia).
  lia.
Qed.

Lemma pack_cases (s : bool) (m1 e1 : Z) :
  0 <= m1 <= 2 ^ 53 -> -1074 <= e1 -> (2 ^ 52 <= m1 \/ e1 = -1074) ->
  (m1 = 0 /\ pack s m1 e1 = S754_zero s) \/
  (0 < m1 /\ exists m' e', pack s m1 e1 = S754_finite s m' e' /\
                 bounded prec emax m' e' = true /\ val (Zpos m') e' = val m1 e1) \/
  (0 < m1 /\ pack s m1 e1 = S754_infinity s /\ 2 ^ (1024 + scale) <= val m1 e1).
Proof.
  intros Hm He Hc. unfold pack.
  destruct m1 as [|p|p]; [left; auto | right | lia].
  destruct (Z.ltb_spec (Zpos p) (2 ^ 53)) as [Hlt|Hge].
  - destruct (Z.leb_spec e1 971) as [Hle|Hgt].
    + left. split; [lia|]. exists p, e1. split; [reflexivity|].
      split; [apply bounded_intro; lia | reflexivity].
    + right. split; [lia|]. split; [reflexivity|]. unfold val.
      destruct Hc as [Hc|Hc]; [|lia].
      replace (1024 + scale) with (52 + (972 + scale)) by lia.
      rewrite pow2_split by (unfold scale; lia).
      assert (2 ^ (972 + scale) <= 2 ^ (e1 + scale))
        by (apply Z.pow_le_mono_r; unfold scale; lia).
      assert (0 < 2 ^ (972 + scale)) by (apply pow2_pos; unfold scale; lia).
      nia.
  - assert (Heq : Zpos p = 2 ^ 53) by lia. rewrite Heq.
    change (2 ^ 53 / 2) with (2 ^ 52).
    assert (Hv : val (2 ^ 52) (e1 + 1) = val (2 ^ 53) e1).
    { unfold val. replace (e1 + 1 + scale) with (1 + (e1 + scale)) by lia.
      rewrite pow2_split by (unfold scale; lia).
      change (2 ^ 53) with (2 ^ 52 * 2 ^ 1). ring. }
    destruct (Z.leb_spec (e1 + 1) 971) as [Hle|Hgt].
    + left. split; [lia|]. exists (Z.to_pos (2 ^ 52)), (e1 + 1).
      split; [reflexivity|]. split; [apply bounded_intro; simpl; lia|].
      exact Hv.
    + right. split; [lia|]. split; [reflexivity|]. rewrite <- Hv. unfold val.
      replace (1024 + scale) with (52 + (972 + scale)) by lia.
      rewrite pow2_split by (unfold scale; lia).
      assert (2 ^ (972 + scale) <= 2 ^ (e1 + 1 + scale))
        by (apply Z.pow_le_mono_r; unfold scale; lia).
      assert (0 < 2 ^ 52) by (apply pow2_pos; lia).
      nia.
Qed.

(** The three outcomes of a rounding, with the value of the result. *)
Lemma binary_round_aux_cases (s : bool) (M : positive) (E : Z) :
  let e1 := fexp prec emax (Zpos (digits2_pos M) + E) in
  let m1 := rne (Zpos M) (e1 - E) in
  E <= e1 ->
  let r := binary_round_aux prec emax s (Zpos M) E loc_Exact in
  (m1 = 0 /\ r = S754_zero s) \/
  (exists m' e', r = S754_finite s m' e' /\
                 bounded prec emax m' e' = true /\ val (Zpos m') e' = val m1 e1) \/
  (r = S754_infinity s /\ 2 ^ (1024 + scale) <= val m1 e1).
Proof.
  intros e1 m1 Hpre r.
  destruct (binary_round_aux_pack s M E Hpre) as [Hr Hm1].
  fold e1 in Hr, Hm1. fold m1 in Hr, Hm1. fold r in Hr.
  pose proof (digits2_pos_bounds M) as [Hlo Hhi].
  assert (He1 : e1 = Z.max (Zpos (digits2_pos M) + E - 53) (-1074)) by reflexivity.
  assert (Hc : 2 ^ 52 <= m1 \/ e1 = -1074).
  { destruct (Z.eq_dec e1 (-1074)) as [|Hne]; [right; assumption|left].
    apply rne_ge; [lia|]. rewrite <- pow2_split by lia.
    replace (52 + (e1 - E)) with (Zpos (digits2_pos M) - 1) by lia. exact Hlo. }
  rewrite Hr.
  destruct (pack_cases s m1 e1 Hm1 ltac:(lia) Hc) as [H|[[_ H]|[_ H]]]; auto.
Qed.

Section RoundBounds.
(** [M] has [d] binary digits and stands at exponent [E]; it is rounded
    at exponent [e1].  [mb], [eb] is a binary64 value. *)
Variables M d E mb eb e1 n u : Z.
Hypothesis He1 : e1 = Z.max (d + E - 53) (-1074).
Hypothesis Hndef : n = e1 - E.
Hypothesis Hudef : u = 2 ^ (E + scale).
Hypothesis HM : 2 ^ (d - 1) <= M < 2 ^ d.
Hypothesis Hd : 1 <= d.
Hypothesis Hpre : E <= e1.
Hypothesis HE : - scale <= E.
Hypothesis Hmb : 0 < mb < 2 ^ 53.
Hypothesis Heb : -1074 <= eb.
Hypothesis Hcan : 2 ^ 52 <= mb \/ eb = -1074.

Lemma u_pos : 0 < u.
Proof. rewrite Hudef. apply pow2_pos. lia. Qed.

Lemma val_M : val M E = M * u.
Proof. unfold val. rewrite Hudef. reflexivity. Qed.

Lemma val_e1 (m : Z) : val m e1 = m * 2 ^ n * u.
Proof.
  unfold val. rewrite Hudef, Hndef.
  replace (e1 + scale) with ((e1 - E) + (E + scale)) by lia.
  rewrite pow2_split by lia. ring.
Qed.

Lemma d_le : 2 ^ d <= 2 ^ (53 + n).
Proof. apply Z.pow_le_mono_r; lia. Qed.

(** Below the midpoint above [mb * 2^eb], the rounding is at most
    [mb * 2^eb]. *)
Lemma round_upper :
  2 * val M E < 2 * val mb eb + 2 ^ (eb + scale) ->
  val (rne M n) e1 <= val mb eb.
Proof.
  intros Hx. pose proof u_pos as Hu.
  assert (Hn : 0 <= n) by lia.
  assert (He : e1 <= eb).
  { destruct (Z_le_gt_dec e1 eb) as [|Hgt]; [assumption|exfalso].
    assert (He1' : e1 = d + E - 53) by lia.
    assert (H1 : 2 ^ (d + E + scale) <= 2 * val M E).
    { rewrite val_M. replace (d + E + scale) with (1 + (d - 1) + (E + scale)) by lia.
      rewrite !pow2_split by lia. change (2 ^ 1) with 2. rewrite <- Hudef.
      clear - HM Hu. nia. }
    assert (H2 : 2 * val mb eb + 2 ^ (eb + scale) < 2 ^ (54 + (eb + scale))).
    { unfold val. rewrite (pow2_split 54 (eb + scale)) by (unfold scale; lia).
      assert (Hp : 0 < 2 ^ (eb + scale)) by (apply pow2_pos; unfold scale; lia).
      change (2 ^ 54) with (2 * 2 ^ 53). clear - Hmb Hp. nia. }
    assert (d + E + scale < 54 + (eb + scale))
      by (apply pow2_lt_inv; [unfold scale; lia | lia]).
    lia. }
  set (k := eb - e1). assert (Hk : 0 <= k) by (unfold k; lia).
  assert (Hvb : forall m, val m eb = m * 2 ^ k * 2 ^ n * u).
  { intros m. unfold val, k. rewrite Hudef, Hndef.
    replace (eb + scale) with ((eb - e1) + (e1 - E) + (E + scale)) by lia.
    rewrite !pow2_split by lia. ring. }
  assert (Hpk : 0 < 2 ^ k) by (apply pow2_pos; assumption).
  assert (Hpn : 0 < 2 ^ n) by (apply pow2_pos; assumption).
  assert (Hxv : val M E = M * u) by apply val_M.
  assert (Hhalf : 2 ^ (eb + scale) = 2 ^ k * 2 ^ n * u).
  { specialize (Hvb 1). unfold val in Hvb. lia. }
  rewrite Hxv, Hvb, Hhalf in Hx.
  assert (Hx' : 2 * M < (2 * mb + 1) * 2 ^ k * 2 ^ n) by nia.
  rewrite val_e1, Hvb.
  assert (rne M n <= mb * 2 ^ k); [|nia].
  apply rne_le; [assumption|].
  destruct (Z.eq_dec k 0) as [Hk0|Hk0].
  - rewrite Hk0 in *. simpl (2 ^ 0) in *. lia.
  - assert (M <= mb * 2 ^ k * 2 ^ n); [|nia].
    destruct (Z_le_gt_dec M (mb * 2 ^ k * 2 ^ n)) as [|Hgt]; [assumption|exfalso].
    assert (2 ^ 52 <= mb) by (destruct Hcan; [assumption | unfold k in *; lia]).
    pose proof d_le as Hdl. rewrite pow2_split in Hdl by lia.
    assert (2 <= 2 ^ k).
    { change 2 with (2 ^ 1) at 1. apply Z.pow_le_mono_r; lia. }
    change (2 ^ 53) with (2 ^ 52 * 2) in Hdl. nia.
Qed.

(** At or above [mb * 2^eb], the rounding is at least [mb * 2^eb]. *)
Lemma round_lower :
  val mb eb <= val M E ->
  val mb eb <= val (rne M n) e1.
Proof.
  intros Hx. pose proof u_pos as Hu.
  assert (Hn : 0 <= n) by lia.
  assert (Hpn : 0 < 2 ^ n) by (apply pow2_pos; assumption).
  assert (Hxv : val M E = M * u) by apply val_M.
  assert (He : eb <= e1).
  { destruct Hcan as [Hc|Hc]; [|lia].
    assert (H1 : 2 ^ (52 + (eb + scale)) <= val mb eb).
    { unfold val. rewrite (pow2_split 52 (eb + scale)) by (unfold scale; lia).
      assert (Hp : 0 < 2 ^ (eb + scale)) by (apply pow2_pos; unfold scale; lia).
      clear - Hc Hp. nia. }
    assert (H2 : val M E < 2 ^ (d + (E + scale))).
    { rewrite Hxv. rewrite (pow2_split d (E + scale)) by lia. rewrite <- Hudef.
      clear - HM Hu. nia. }
    assert (52 + (eb + scale) < d + (E + scale))
      by (apply pow2_lt_inv; [lia | lia]).
    lia. }
  destruct (Z.eq_dec e1 eb) as [Heq|Hne].
  - rewrite val_e1. 
    assert (Hvb : val mb eb = mb * 2 ^ n * u) by (rewrite <- Heq; apply val_e1).
    rewrite Hvb in *. rewrite Hxv in Hx.
    assert (mb <= rne M n); [|nia].
    apply rne_ge; [assumption|]. nia.
  - assert (He1' : e1 = d + E - 53) by lia.
    assert (2 ^ 52 <= rne M n).
    { apply rne_ge; [assumption|]. rewrite <- pow2_split by lia.
      replace (52 + n) with (d - 1) by lia. lia. }
    unfold val.
    assert (2 ^ (1 + (eb + scale)) <= 2 ^ (e1 + scale))
      by (apply Z.pow_le_mono_r; unfold scale; lia).
    rewrite pow2_split in H0 by (unfold scale; lia). change (2 ^ 1) with 2 in H0.
    assert (0 < 2 ^ (eb + scale)) by (apply pow2_pos; unfold scale; lia).
    change (2 ^ 53) with (2 ^ 52 * 2) in Hmb. nia.
Qed.
End RoundBounds.

Lemma val_canonical_unique (m1 m2 : positive) (e1 e2 : Z) :
  bounded prec emax m1 e1 = true -> bounded prec emax m2 e2 = true ->
  val (Zpos m1) e1 = val (Zpos m2) e2 -> m1 = m2 /\ e1 = e2.
Proof.
  intros H1 H2 Hv.
  apply bounded_inv in H1. apply bounded_inv in H2.
  destruct H1 as (Hm1 & He1 & Hc1). destruct H2 as (Hm2 & He2 & Hc2).
  assert (Hlt : forall (a b : positive) (ea eb : Z),
             Zpos a < 2 ^ 53 -> -1074 <= ea -> ea < eb -> 2 ^ 52 <= Zpos b ->
             val (Zpos a) ea < val (Zpos b) eb).
  { intros a b ea eb Ha Hea Hlt Hb. unfold val.
    assert (2 ^ (1 + (ea + scale)) <= 2 ^ (eb + scale))
      by (apply Z.pow_le_mono_r; unfold scale; lia).
    rewrite pow2_split in H by (unfold scale; lia). change (2 ^ 1) with 2 in H.
    assert (0 < 2 ^ (ea + scale)) by (apply pow2_pos; unfold scale; lia).
    change (2 ^ 53) with (2 ^ 52 * 2) in Ha. nia. }
  assert (He : e1 = e2).
  { destruct (Z.lt_trichotomy e1 e2) as [Hl|[Heq|Hg]]; [exfalso|assumption|exfalso].
    - assert (2 ^ 52 <= Zpos m2) by (destruct Hc2; lia).
      specialize (Hlt m1 m2 e1 e2). lia.
    - assert (2 ^ 52 <= Zpos m1) by (destruct Hc1; lia).
      specialize (Hlt m2 m1 e2 e1). lia. }
  split; [|exact He]. subst e2. unfold val in Hv.
  assert (0 < 2 ^ (e1 + scale)) by (apply pow2_pos; unfold scale; lia).
  apply Z.mul_reg_r in Hv; [congruence | lia].
Qed.

Lemma val_bounded_lt (m : positive) (e : Z) :
  bounded prec emax m e = true -> 0 < val (Zpos m) e < 2 ^ (1024 + scale).
Proof.
  intros Hb. apply bounded_inv in Hb. destruct Hb as (Hm & He & _). unfold val.
  assert (Hp : 0 < 2 ^ (e + scale)) by (apply pow2_pos; unfold scale; lia).
  split; [lia|].
  replace (1024 + scale) with (53 + (971 + scale)) by lia.
  rewrite (pow2_split 53 (971 + scale)) by (unfold scale; lia).
  assert (2 ^ (e + scale) <= 2 ^ (971 + scale))
    by (apply Z.pow_le_mono_r; unfold scale; lia).
  nia.
Qed.

Section RoundAux.
Variables (s : bool) (M : positive) (E : Z).
Hypothesis Hpre : E <= fexp prec emax (Zpos (digits2_pos M) + E).
Hypothesis HE : - scale <= E.

Lemma binary_round_aux_upper (mb : positive) (eb : Z) :
  bounded prec emax mb eb = true ->
  2 * val (Zpos M) E < 2 * val (Zpos mb) eb + 2 ^ (eb + scale) ->
  binary_round_aux prec emax s (Zpos M) E loc_Exact = S754_zero s \/
  exists m' e',
    binary_round_aux prec emax s (Zpos M) E loc_Exact = S754_finite s m' e' /\
    bounded prec emax m' e' = true /\ val (Zpos m') e' <= val (Zpos mb) eb.
Proof.
  intros Hb Hx. pose proof (val_bounded_lt mb eb Hb) as Hvb.
  apply bounded_inv in Hb. destruct Hb as (Hmb & Heb & Hc).
  pose proof (digits2_pos_bounds M) as HM.
  set (e1 := fexp prec emax (Zpos (digits2_pos M) + E)) in *.
  assert (Hv := round_upper (Zpos M) (Zpos (digits2_pos M)) E (Zpos mb) eb e1
                  (e1 - E) (2 ^ (E + scale)) eq_refl eq_refl eq_refl HM
                  ltac:(lia) Hpre HE ltac:(lia) ltac:(lia) Hc Hx).
  destruct (binary_round_aux_cases s M E Hpre) as [[_ H]|[(m' & e' & H & Hb' & Hv')|[_ H]]].
  - left. exact H.
  - right. exists m', e'. repeat split; [exact H | exact Hb' |].
    rewrite Hv'. exact Hv.
  - exfalso. fold e1 in H. lia.
Qed.

Lemma binary_round_aux_lower (mb : positive) (eb : Z) :
  bounded prec emax mb eb = true ->
  val (Zpos mb) eb <= val (Zpos M) E ->
  binary_round_aux prec emax s (Zpos M) E loc_Exact = S754_infinity s \/
  exists m' e',
    binary_round_aux prec emax s (Zpos M) E loc_Exact = S754_finite s m' e' /\
    bounded prec emax m' e' = true /\ val (Zpos mb) eb <= val (Zpos m') e'.
Proof.
  intros Hb Hx. pose proof (val_bounded_lt mb eb Hb) as Hvb.
  apply bounded_inv in Hb. destruct Hb as (Hmb & Heb & Hc).
  pose proof (digits2_pos_bounds M) as HM.
  set (e1 := fexp prec emax (Zpos (digits2_pos M) + E)) in *.
  assert (Hv := round_lower (Zpos M) (Zpos (digits2_pos M)) E (Zpos mb) eb e1
                  (e1 - E) (2 ^ (E + scale)) eq_refl eq_refl eq_refl HM
                  ltac:(lia) Hpre HE ltac:(lia) ltac:(lia) Hc Hx).
  destruct (binary_round_aux_cases s M E Hpre) as [[H0 _]|[(m' & e' & H & Hb' & Hv')|[H _]]].
  - exfalso. fold e1 in H0. rewrite H0 in Hv. unfold val at 2 in Hv. lia.
  - right. exists m', e'. repeat split; [exact H | exact Hb' |].
    rewrite Hv'. exact Hv.
  - left. exact H.
Qed.
End RoundAux.

Lemma iter_xO (m p : positive) : Zpos (Pos.iter xO m p) = Zpos m * 2 ^ Zpos p.
Proof.
  induction p as [|p IH] using Pos.peano_ind.
  - cbn [Pos.iter]. rewrite Pos2Z.inj_xO. change (2 ^ 1) with 2. lia.
  - rewrite Pos.iter_succ, Pos2Z.inj_xO, IH, Pos2Z.inj_succ, Z.pow_succ_r by lia. ring.
Qed.

Lemma shl_align_spec (M : positive) (E e0 : Z) :
  snd (shl_align M E e0) = Z.min E e0 /\
  Zpos (fst (shl_align M E e0)) = Zpos M * 2 ^ (E - Z.min E e0).
Proof.
  unfold shl_align. destruct (e0 - E) as [|p|p] eqn:Hd; simpl fst; simpl snd.
  - replace (Z.min E e0) with E by lia. rewrite Z.sub_diag. simpl. lia.
  - replace (Z.min E e0) with E by lia. rewrite Z.sub_diag. simpl. lia.
  - replace (Z.min E e0) with e0 by lia. split; [reflexivity|].
    rewrite iter_xO. f_equal. f_equal. lia.
Qed.

Lemma val_shl_align (M : positive) (E e0 : Z) :
  - scale <= E -> - scale <= e0 ->
  val (Zpos (fst (shl_align M E e0))) (Z.min E e0) = val (Zpos M) E.
Proof.
  intros HE He0. destruct (shl_align_spec M E e0) as [_ ->]. unfold val.
  rewrite <- Z.mul_assoc, <- pow2_split by lia. f_equal. f_equal. lia.
Qed.

Lemma digits2_pos_shift (M M' : positive) (k : Z) :
  0 <= k -> Zpos M' = Zpos M * 2 ^ k ->
  Zpos (digits2_pos M') = Zpos (digits2_pos M) + k.
Proof.
  intros Hk HM'. apply digits2_pos_unique.
  pose proof (digits2_pos_bounds M) as [Hlo Hhi]. rewrite HM'.
  replace (Zpos (digits2_pos M) + k - 1) with ((Zpos (digits2_pos M) - 1) + k) by lia.
  rewrite !pow2_split by lia. pose proof (pow2_pos k Hk). nia.
Qed.

Section Round.
Variables (s : bool) (M : positive) (E : Z).
Hypothesis HE : - scale <= E.

Lemma binary_round_aligned :
  exists M' E',
    binary_round prec emax s M E = binary_round_aux prec emax s (Zpos M') E' loc_Exact
    /\ E' <= fexp prec emax (Zpos (digits2_pos M') + E')
    /\ - scale <= E' /\ val (Zpos M') E' = val (Zpos M) E.
Proof.
  set (e0 := fexp prec emax (Zpos (digits2_pos M) + E)).
  set (M' := fst (shl_align M E e0)). set (E' := Z.min E e0).
  exists M', E'.
  assert (He0 : e0 = Z.max (Zpos (digits2_pos M) + E - 53) (-1074)) by reflexivity.
  destruct (shl_align_spec M E e0) as [Hsnd Hfst]. fold M' E' in Hsnd, Hfst.
  split; [|split; [|split]].
  - unfold binary_round. fold e0.
    rewrite (surjective_pairing (shl_align M E e0)), Hsnd. reflexivity.
  - rewrite (digits2_pos_shift M M' (E - E') ltac:(unfold E'; lia) Hfst).
    rewrite fexp_eq. unfold E'. lia.
  - unfold E', scale in *. lia.
  - apply val_shl_align; unfold scale in *; lia.
Qed.

Lemma binary_round_cases :
  binary_round prec emax s M E = S754_zero s \/
  binary_round prec emax s M E = S754_infinity s \/
  exists m' e', binary_round prec emax s M E = S754_finite s m' e' /\
                bounded prec emax m' e' = true.
Proof.
  destruct binary_round_aligned as (M' & E' & -> & Hpre & _ & _).
  destruct (binary_round_aux_cases s M' E' Hpre) as [[_ H]|[(m' & e' & H & Hb & _)|[H _]]];
    [left | right; right; exists m', e' | right; left]; auto.
Qed.

Lemma binary_round_upper (mb : positive) (eb : Z) :
  bounded prec emax mb eb = true ->
  2 * val (Zpos M) E < 2 * val (Zpos mb) eb + 2 ^ (eb + scale) ->
  binary_round prec emax s M E = S754_zero s \/
  exists m' e', binary_round prec emax s M E = S754_finite s m' e' /\
                bounded prec emax m' e' = true /\
                val (Zpos m') e' <= val (Zpos mb) eb.
Proof.
  destruct binary_round_aligned as (M' & E' & -> & Hpre & HE' & <-).
  apply binary_round_aux_upper; assumption.
Qed.

Lemma binary_round_lower (mb : positive) (eb : Z) :
  bounded prec emax mb eb = true ->
  val (Zpos mb) eb <= val (Zpos M) E ->
  binary_round prec emax s M E = S754_infinity s \/
  exists m' e', binary_round prec emax s M E = S754_finite s m' e' /\
                bounded prec emax m' e' = true /\
                val (Zpos mb) eb <= val (Zpos m') e'.
Proof.
  destruct binary_round_aligned as (M' & E' & -> & Hpre & HE' & <-).
  apply binary_round_aux_lower; assumption.
Qed.

(** A value that is a binary64 value is rounded to itself. *)
Lemma binary_round_exact (mb : positive) (eb : Z) :
  bounded prec emax mb eb = true ->
  val (Zpos M) E = val (Zpos mb) eb ->
  binary_round prec emax s M E = S754_finite s mb eb.
Proof.
  intros Hb Hv.
  assert (Hp : 0 < 2 ^ (eb + scale)).
  { apply bounded_inv in Hb. apply pow2_pos. unfold scale. lia. }
  destruct (binary_round_upper mb eb Hb ltac:(lia)) as [H0|(m1 & x1 & H1 & Hb1 & Hle)];
  destruct (binary_round_lower mb eb Hb ltac:(lia)) as [Hi|(m2 & x2 & H2 & Hb2 & Hge)];
    try congruence.
  rewrite H1 in H2. injection H2 as <- <-.
  destruct (val_canonical_unique m1 mb x1 eb Hb1 Hb ltac:(lia)) as [-> ->].
  exact H1.
Qed.
End Round.

(** ** Numbers of the page in mantissa and exponent form *)

Lemma of_Z_1 : of_Z 1 = S754_finite false 4503599627370496 (-52).
Proof. reflexivity. Qed.

Lemma of_Z_100000 : of_Z 100000 = S754_finite false 6871947673600000 (-36).
Proof. vm_compute. reflexivity. Qed.

Lemma of_Z_900000 : of_Z 900000 = S754_finite false 7730941132800000 (-33).
Proof. vm_compute. reflexivity. Qed.

Lemma compare_cont_Lt (m q : positive) :
  match Pos.compare_cont Eq m q with Lt => true | _ => false end = true ->
  Zpos m < Zpos q.
Proof.
  intros Hlt. rewrite Pos.compare_cont_spec in Hlt. unfold Pos.switch_Eq in Hlt.
  destruct (Pos.compare_spec m q) as [Hcmp|Hcmp|Hcmp];
    [discriminate Hlt | | discriminate Hlt].
  apply Pos2Z.pos_lt_pos. exact Hcmp.
Qed.

(** A number in [0, 1) is a zero or has a positive sign and an exponent
    of at most [-53]. *)
Lemma is_random_inv (r : number) :
  is_random r ->
  (exists s, r = S754_zero s) \/
  (exists m e, r = S754_finite false m e /\ bounded prec emax m e = true /\ e <= -53).
Proof.
  intros (Hv & Hle & Hlt). rewrite of_Z_1 in Hlt.
  destruct r as [s|s| |s m e].
  - left. exists s. reflexivity.
  - destruct s; discriminate.
  - discriminate.
  - right. destruct s; [discriminate|].
    exists m, e. split; [reflexivity|]. split; [exact Hv|].
    unfold lt, SFltb, SFcompare in Hlt.
    destruct (Z.compare_spec e (-52)) as [He|He|He]; [|lia|discriminate].
    exfalso. subst e. apply bounded_inv in Hv. destruct Hv as (_ & _ & [Hc|Hc]); [|lia].
    assert (Hcmp : Zpos m < 4503599627370496).
    { apply compare_cont_Lt.
      destruct (Pos.compare_cont Eq m 4503599627370496);
        try discriminate Hlt; reflexivity. }
    change (2 ^ 52) with 4503599627370496 in Hc. clear - Hcmp Hc. lia.
Qed.

Lemma digits2_pos_mul_ge (a b : positive) :
  2 ^ 52 <= Zpos b -> 53 <= Zpos (digits2_pos (a * b)).
Proof.
  intros Hb. pose proof (digits2_pos_bounds (a * b)) as [_ Hhi].
  rewrite Pos2Z.inj_mul in Hhi.
  assert (52 < Zpos (digits2_pos (a * b))); [|lia].
  apply pow2_lt_inv; [lia|].
  assert (Zpos b <= Zpos a * Zpos b) by (clear; nia).
  lia.
Qed.

(** [random * 900000] is at most [900000 - 2^-33]. *)
Lemma random_times_900000 (m : positive) (e : Z) :
  bounded prec emax m e = true -> e <= -53 ->
  let p := mul (S754_finite false m e) (of_Z 900000) in
  p = S754_zero false \/
  exists mp ep, p = S754_finite false mp ep /\ bounded prec emax mp ep = true /\
                val (Zpos mp) ep <= val 7730941132799999 (-33).
Proof.
  intros Hb He p. unfold p. rewrite of_Z_900000.
  unfold mul, SFmul. change (xorb false false) with false.
  apply bounded_inv in Hb. destruct Hb as (Hm & He' & _).
  apply binary_round_aux_upper.
  - pose proof (digits2_pos_mul_ge m 7730941132800000 ltac:(simpl; lia)).
    rewrite fexp_eq. lia.
  - unfold scale. lia.
  - reflexivity.
  - unfold val. rewrite Pos2Z.inj_mul.
    set (w := 2 ^ (e + -33 + scale)).
    assert (Hw : 0 < w) by (apply pow2_pos; unfold scale; lia).
    set (T := 2 ^ (- e)).
    assert (HT : 2 ^ (-33 + scale) = T * w).
    { unfold T, w. rewrite <- pow2_split by (unfold scale; lia). f_equal. lia. }
    rewrite HT.
    assert (HT53 : T = 2 ^ 53 \/ 2 * 2 ^ 53 <= T).
    { unfold T. destruct (Z.eq_dec e (-53)) as [->|Hne]; [left; reflexivity|right].
      change (2 * 2 ^ 53) with (2 ^ 54). apply Z.pow_le_mono_r; lia. }
    clearbody w T. clear - Hm Hw HT53.
    change (2 ^ 53) with 9007199254740992 in *.
    destruct HT53 as [->|HT53]; nia.
Qed.

(** C7.  For every value of [Math.random()], a number [r] with
    [0 <= r < 1], the order number is an integer between 100000 and
    999999. *)
Theorem randomOrderNumber_range (random : number) :
  is_random random ->
  exists n : Z, randomOrderNumber random = of_Z n /\ 100000 <= n <= 999999.
Proof.
  intros Hr. destruct (is_random_inv random Hr) as [[s ->]|(m & e & -> & Hb & He)].
  - exists 100000. split; [destruct s; vm_compute; reflexivity | lia].
  - unfold randomOrderNumber.
    destruct (random_times_900000 m e Hb He) as [->|(mp & ep & -> & Hbp & Hvp)].
    + exists 100000. split; [vm_compute; reflexivity | lia].
    + rewrite of_Z_100000. unfold add, SFadd, binary_normalize. cbn [cond_Zopp].
      set (ez := Z.min (-36) ep).
      pose proof (bounded_inv mp ep Hbp) as (Hmp & Hep & _).
      assert (Hva := val_shl_align 6871947673600000 (-36) ez
                       ltac:(unfold scale; lia) ltac:(unfold ez, scale; lia)).
      assert (Hvb := val_shl_align mp ep ez
                       ltac:(unfold scale; lia) ltac:(unfold ez, scale; lia)).
      replace (Z.min (-36) ez) with ez in Hva by (unfold ez; lia).
      replace (Z.min ep ez) with ez in Hvb by (unfold ez; lia).
      set (a := fst (shl_align 6871947673600000 (-36) ez)) in *.
      set (b := fst (shl_align mp ep ez)) in *.
      change (Zpos a + Zpos b) with (Zpos (a + b)).
      assert (Hsum : val (Zpos (a + b)) ez
                     = val 6871947673600000 (-36) + val (Zpos mp) ep).
      { rewrite <- Hva, <- Hvb. unfold val. rewrite Pos2Z.inj_add. ring. }
      assert (HE : - scale <= ez) by (unfold ez, scale; lia).
      pose proof (val_bounded_lt mp ep Hbp) as Hpos.
      assert (Htop : val 6871947673600000 (-36) + val 7730941132799999 (-33)
                     = val 8589934591999999 (-33)) by (vm_compute; reflexivity).
      destruct (binary_round_upper false (a + b) ez HE 8589934591999999 (-33) eq_refl)
        as [H0|(ms & es & Hs & Hbs & Hup)].
      { assert (0 < 2 ^ (-33 + scale)) by (apply pow2_pos; unfold scale; lia). lia. }
      { exfalso.
        destruct (binary_round_lower false (a + b) ez HE 6871947673600000 (-36) eq_refl)
          as [Hi|(? & ? & Hs' & _)]; [lia | congruence | congruence]. }
      destruct (binary_round_lower false (a + b) ez HE 6871947673600000 (-36) eq_refl)
        as [Hi|(ms' & es' & Hs' & _ & Hlo)]; [lia | congruence |].
      rewrite Hs in Hs'. injection Hs' as <- <-. rewrite Hs.
      clear Hs Hsum Hva Hvb Htop Hvp.
      pose proof (bounded_inv ms es Hbs) as (Hms & Hes & Hcs).
      assert (Hlo' : 100000 * 2 ^ scale <= val (Zpos ms) es)
        by (etransitivity; [|exact Hlo]; vm_compute; discriminate).
      assert (Hup' : val (Zpos ms) es < 1000000 * 2 ^ scale)
        by (eapply Z.le_lt_trans; [exact Hup|]; vm_compute; reflexivity).
      assert (Hneg : es < 0).
      { destruct (Z_lt_ge_dec es 0) as [|Hge]; [assumption|exfalso].
        assert (2 ^ 52 <= Zpos ms) by (destruct Hcs; lia).
        assert (2 ^ scale <= 2 ^ (es + scale))
          by (apply Z.pow_le_mono_r; unfold scale; lia).
        assert (0 < 2 ^ scale) by (apply pow2_pos; unfold scale; lia).
        unfold val in Hup'. change (2 ^ 52) with 4503599627370496 in *. nia. }
      unfold Math_floor. destruct (Z.leb_spec 0 es) as [|_]; [lia|].
      cbn [cond_Zopp].
      set (t := 2 ^ (- es)). assert (Ht : 0 < t) by (apply pow2_pos; lia).
      assert (Hsc : 2 ^ scale = t * 2 ^ (es + scale)).
      { unfold t. rewrite <- pow2_split by (unfold scale; lia). f_equal. lia. }
      assert (Hw : 0 < 2 ^ (es + scale)) by (apply pow2_pos; unfold scale; lia).
      unfold val in Hlo', Hup'. rewrite Hsc in Hlo', Hup'.
      assert (Hz : 100000 <= Zpos ms / t <= 999999).
      { split.
        - apply Z.div_le_lower_bound; [assumption|]. nia.
        - assert (Zpos ms / t < 1000000); [|lia].
          apply Z.div_lt_upper_bound; [assumption|]. nia. }
      exists (Zpos ms / t). split; [|exact Hz].
      destruct (Zpos ms / t) as [|z|z]; [lia | reflexivity | lia].
Qed.

Lemma randomOrderNumber_range_witness :
  exists n : Z,
    randomOrderNumber (of_decimal false 5 1) = of_Z n /\ 100000 <= n <= 999999.
Proof.
  apply randomOrderNumber_range. repeat split; reflexivity.
Defined.

(** ** Comparison and the integers up to [2^53] *)

Lemma val_lt_exponent (a b : positive) (ea eb : Z) :
  Zpos a < 2 ^ 53 -> -1074 <= ea -> ea < eb -> 2 ^ 52 <= Zpos b ->
  val (Zpos a) ea < val (Zpos b) eb.
Proof.
  intros Ha Hea Hlt Hb. unfold val.
  assert (H : 2 ^ (1 + (ea + scale)) <= 2 ^ (eb + scale))
    by (apply Z.pow_le_mono_r; unfold scale; lia).
  rewrite (pow2_split 1 (ea + scale)) in H by (unfold scale; lia).
  change (2 ^ 1) with 2 in H.
  assert (Hp : 0 < 2 ^ (ea + scale)) by (apply pow2_pos; unfold scale; lia).
  change (2 ^ 53) with (2 ^ 52 * 2) in Ha.
  generalize dependent (2 ^ (ea + scale)). generalize dependent (2 ^ (eb + scale)).
  generalize dependent (2 ^ 52). clear. intros. nia.
Qed.

Lemma pos_compare_cont_Eq (a b : positive) :
  Pos.compare_cont Eq a b = (Zpos a ?= Zpos b).
Proof. reflexivity. Qed.

(** On binary64 values of positive sign, [SFcompare] compares the values. *)
Lemma SFcompare_val (m1 m2 : positive) (e1 e2 : Z) :
  bounded prec emax m1 e1 = true -> bounded prec emax m2 e2 = true ->
  SFcompare (S754_finite false m1 e1) (S754_finite false m2 e2)
  = Some (val (Zpos m1) e1 ?= val (Zpos m2) e2).
Proof.
  intros H1 H2. apply bounded_inv in H1. apply bounded_inv in H2.
  destruct H1 as (Hm1 & He1 & Hc1). destruct H2 as (Hm2 & He2 & Hc2).
  unfold SFcompare. f_equal.
  destruct (Z.compare_spec e1 e2) as [He|He|He].
  - subst e2. rewrite pos_compare_cont_Eq. unfold val.
    assert (Hp : 0 < 2 ^ (e1 + scale)) by (apply pow2_pos; unfold scale; lia).
    apply Zmult_compare_compat_r. lia.
  - symmetry. apply Z.compare_lt_iff. apply val_lt_exponent; lia.
  - symmetry. apply Z.compare_gt_iff. apply val_lt_exponent; lia.
Qed.

Lemma val_0 (n : Z) : val n 0 = n * 2 ^ scale.
Proof. reflexivity. Qed.

(** An integer from 1 to [2^53] is a binary64 value. *)
Lemma of_Z_small (n : Z) :
  1 <= n <= 2 ^ 53 ->
  exists mb eb, of_Z n = S754_finite false mb eb /\ bounded prec emax mb eb = true /\
                val (Zpos mb) eb = n * 2 ^ scale.
Proof.
  intros Hn. destruct n as [|p|p]; try lia.
  assert (Hex : exists mb eb, bounded prec emax mb eb = true /\
                              val (Zpos mb) eb = Zpos p * 2 ^ scale).
  { destruct (Z.eq_dec (Zpos p) (2 ^ 53)) as [Heq|Hne].
    - exists (Z.to_pos (2 ^ 52)), 1. split; [reflexivity|]. rewrite Heq.
      unfold val. rewrite (pow2_split 1 scale) by (unfold scale; lia).
      change (Zpos (Z.to_pos (2 ^ 52))) with (2 ^ 52).
      change (2 ^ 53) with (2 ^ 52 * 2 ^ 1). ring.
    - pose proof (digits2_pos_bounds p) as [Hlo Hhi].
      set (d := Zpos (digits2_pos p)) in *.
      assert (Hd : d <= 53).
      { assert (d - 1 < 53) by (apply pow2_lt_inv; lia). lia. }
      assert (Hd1 : 1 <= d) by (unfold d; lia).
      set (k := 53 - d). assert (Hk : 0 <= k) by (unfold k; lia).
      pose proof (pow2_pos k Hk) as Hpk.
      assert (H52 : 2 ^ 52 = 2 ^ (d - 1) * 2 ^ k)
        by (rewrite <- pow2_split by lia; f_equal; unfold k; lia).
      assert (H53 : 2 ^ 53 = 2 ^ d * 2 ^ k)
        by (rewrite <- pow2_split by lia; f_equal; unfold k; lia).
      exists (Z.to_pos (Zpos p * 2 ^ k)), (- k).
      assert (Hz : Zpos (Z.to_pos (Zpos p * 2 ^ k)) = Zpos p * 2 ^ k)
        by (apply Z2Pos.id; lia).
      split.
      + apply bounded_intro; rewrite ?Hz.
        * rewrite H53. apply Z.mul_lt_mono_pos_r; lia.
        * unfold k. lia.
        * left. rewrite H52. apply Z.mul_le_mono_nonneg_r; lia.
      + unfold val. rewrite Hz.
        replace scale with (k + (- k + scale)) at 2 by lia.
        rewrite (pow2_split k (- k + scale)) by (unfold k, scale; lia). ring. }
  destruct Hex as (mb & eb & Hb & Hv). exists mb, eb.
  split; [|split; assumption].
  unfold of_Z, binary_normalize.
  apply binary_round_exact; [unfold scale; lia | exact Hb |].
  rewrite val_0. symmetry. exact Hv.
Qed.

(** The difference of two binary64 values of positive sign. *)
Lemma sub_finite (mx my : positive) (ex ey : Z) :
  -1074 <= ex -> -1074 <= ey ->
  exists D ez,
    - scale <= ez /\
    val D ez = val (Zpos mx) ex - val (Zpos my) ey /\
    sub (S754_finite false mx ex) (S754_finite false my ey)
    = binary_normalize prec emax D ez false.
Proof.
  intros Hex Hey. set (ez := Z.min ex ey).
  exists (Zpos (fst (shl_align mx ex ez)) - Zpos (fst (shl_align my ey ez))), ez.
  assert (Hva := val_shl_align mx ex ez ltac:(unfold scale; lia) ltac:(unfold ez, scale; lia)).
  assert (Hvb := val_shl_align my ey ez ltac:(unfold scale; lia) ltac:(unfold ez, scale; lia)).
  replace (Z.min ex ez) with ez in Hva by (unfold ez; lia).
  replace (Z.min ey ez) with ez in Hvb by (unfold ez; lia).
  split; [unfold ez, scale; lia|]. split.
  - rewrite <- Hva, <- Hvb. unfold val. ring.
  - reflexivity.
Qed.

Lemma binary_normalize_not_nan (D ez : Z) :
  - scale <= ez -> binary_normalize prec emax D ez false <> S754_nan.
Proof.
  intros HE. destruct D as [|p|p]; simpl binary_normalize; [discriminate| |].
  - destruct (binary_round_cases false p ez HE) as [H|[H|(m & e & H & _)]];
      rewrite H; discriminate.
  - destruct (binary_round_cases true p ez HE) as [H|[H|(m & e & H & _)]];
      rewrite H; discriminate.
Qed.

Lemma Math_max_ge (m : positive) (e : Z) (y : number) :
  y <> S754_nan ->
  le (S754_finite false m e) (Math_max (S754_finite false m e) y) = true.
Proof.
  intros Hy. unfold Math_max.
  assert (Hrefl : le (S754_finite false m e) (S754_finite false m e) = true).
  { unfold le, SFleb, SFcompare. rewrite Z.compare_refl, pos_compare_cont_Eq, Z.compare_refl.
    reflexivity. }
  destruct (SFcompare (S754_finite false m e) y) as [[| |]|] eqn:Hc.
  - exact Hrefl.
  - unfold le, SFleb. rewrite Hc. reflexivity.
  - exact Hrefl.
  - destruct y as [s|s| |s my ey]; try discriminate Hc. congruence.
Qed.

(** C9.  On an item whose quantity is at least 1, the "-" button hands
    over a quantity that is again at least 1; when the quantity is an
    integer [n] (up to [2^53]) it is the integer [max 1 (n - 1)]. *)
Theorem decreaseQuantity_at_least_one (item : CartItem) :
  is_number (quantity item) ->
  le (of_Z 1) (quantity item) = true ->
  decreaseQuantity item = Math_max (of_Z 1) (sub (quantity item) (of_Z 1)) /\
  le (of_Z 1) (decreaseQuantity item) = true /\
  forall n, 1 <= n <= 2 ^ 53 -> quantity item = of_Z n ->
            decreaseQuantity item = of_Z (Z.max 1 (n - 1)).
Proof.
  intros Hv Hq. split; [reflexivity|]. unfold decreaseQuantity. rewrite of_Z_1 in *.
  split.
  - apply Math_max_ge.
    destruct (quantity item) as [s|s| |s m e]; try discriminate Hq.
    + destruct s; [discriminate Hq | discriminate].
    + destruct s; [discriminate Hq|].
      apply bounded_inv in Hv. destruct Hv as (_ & He & _).
      destruct (sub_finite m 4503599627370496 e (-52) ltac:(lia) ltac:(lia))
        as (D & ez & HE & _ & ->).
      apply binary_normalize_not_nan. exact HE.
  - intros n Hn Hqn. rewrite Hqn.
    destruct (of_Z_small n Hn) as (mn & en & Hofn & Hbn & Hvn). rewrite Hofn.
    pose proof (bounded_inv mn en Hbn) as (_ & Hen & _).
    destruct (sub_finite mn 4503599627370496 en (-52) ltac:(lia) ltac:(lia))
      as (D & ez & HE & HD & ->).
    assert (H1 : val 4503599627370496 (-52) = 2 ^ scale) by (vm_compute; reflexivity).
    rewrite Hvn, H1 in HD.
    assert (Hp : 0 < 2 ^ (ez + scale)) by (apply pow2_pos; lia).
    assert (Hs : 0 < 2 ^ scale) by (apply pow2_pos; unfold scale; lia).
    destruct (Z.eq_dec n 1) as [->|Hn1].
    + assert (D = 0) by (unfold val in HD; nia). subst D.
      reflexivity.
    + replace (Z.max 1 (n - 1)) with (n - 1) by lia.
      destruct (of_Z_small (n - 1) ltac:(lia)) as (m' & e' & Hof' & Hb' & Hv').
      assert (HDpos : 0 < D) by (unfold val in HD; nia).
      destruct D as [|pd|pd]; try lia.
      simpl binary_normalize.
      rewrite (binary_round_exact false pd ez HE m' e' Hb')
        by (rewrite Hv', HD; ring).
      rewrite Hof'. unfold Math_max.
      rewrite (SFcompare_val 4503599627370496 m' (-52) e' eq_refl Hb'), H1, Hv'.
      destruct (Z.compare_spec (2 ^ scale) ((n - 1) * 2 ^ scale)) as [Heq|Hlt|Hgt].
      * assert (Hval : val 4503599627370496 (-52) = val (Zpos m') e')
          by (rewrite H1, Hv'; exact Heq).
        destruct (val_canonical_unique 4503599627370496 m' (-52) e' eq_refl Hb' Hval) as [<- <-].
        reflexivity.
      * reflexivity.
      * exfalso. nia.
Qed.

Lemma decreaseQuantity_at_least_one_witness :
  le (of_Z 1) (decreaseQuantity (photo "s1-a" "5x7" 3)) = true /\
  decreaseQuantity (photo "s1-a" "5x7" 3) = of_Z 2.
Proof.
  destruct (decreaseQuantity_at_least_one (photo "s1-a" "5x7" 3))
    as (_ & Hle & Hint); [reflexivity | reflexivity |].
  split; [exact Hle|].
  apply (Hint 3); [vm_compute; split; discriminate | reflexivity].
Defined.

(** ** Rounding to two decimals *)

Lemma Qfloor_scaled (num : Z) (den : positive) (k : Z) :
  Qfloor ((num # den) * inject_Z k + (1 # 2)) = (2 * (num * k) + Zpos den) / (2 * Zpos den).
Proof.
  unfold Qfloor, Qplus, Qmult, inject_Z. simpl Qnum. simpl Qden.
  rewrite Pos.mul_1_r, Pos2Z.inj_mul. f_equal; ring.
Qed.

Lemma Qle_bool_0_scaled (num : Z) (den : positive) (k : Z) :
  Qle_bool 0 ((num # den) * inject_Z k) = (0 <=? num * k).
Proof.
  unfold Qle_bool, Qmult, inject_Z. cbn [Qnum Qden].
  rewrite Z.mul_0_l, Z.mul_1_r. reflexivity.
Qed.

Lemma Qopp_scaled (num : Z) (den : positive) (k : Z) :
  (- ((- num # den) * inject_Z k))%Q = ((num # den) * inject_Z k)%Q.
Proof.
  unfold Qopp, Qmult, inject_Z. cbn [Qnum Qden]. f_equal. ring.
Qed.

Lemma nearest_scaled_half_away (s : bool) (m : positive) (e : Z) (f : nat) :
  nearest_scaled m e f
  = Z.abs (round_half_away (Q_of (S754_finite s m e) * inject_Z (10 ^ Z.of_nat f))).
Proof.
  set (k := 10 ^ Z.of_nat f). assert (Hk : 0 < k) by (apply Z.pow_pos_nonneg; lia).
  unfold nearest_scaled, round_half_away, Q_of. fold k.
  destruct (Z.leb_spec 0 e) as [He|He].
  - assert (Hp : 0 < 2 ^ e) by (apply pow2_pos; lia).
    assert (Hpos : 0 < Zpos m * 2 ^ e * k) by (apply Z.mul_pos_pos; lia).
    assert (Hfl : (2 * (Zpos m * 2 ^ e * k) + 1) / (2 * 1) = Zpos m * 2 ^ e * k).
    { replace (2 * (Zpos m * 2 ^ e * k) + 1) with (1 + (Zpos m * 2 ^ e * k) * 2) by ring.
      rewrite Z.div_add by lia. reflexivity. }
    destruct s; cbn [cond_Zopp].
    + change (inject_Z (- (Zpos m * 2 ^ e))) with (- (Zpos m * 2 ^ e) # 1).
      rewrite Qle_bool_0_scaled.
      destruct (Z.leb_spec 0 (- (Zpos m * 2 ^ e) * k)) as [Hc|_]; [exfalso; lia|].
      rewrite Qopp_scaled, Qfloor_scaled, Hfl, Z.abs_opp. symmetry. apply Z.abs_eq. lia.
    + change (inject_Z (Zpos m * 2 ^ e)) with (Zpos m * 2 ^ e # 1).
      rewrite Qle_bool_0_scaled.
      destruct (Z.leb_spec 0 (Zpos m * 2 ^ e * k)) as [_|Hc]; [|exfalso; lia].
      rewrite Qfloor_scaled, Hfl. symmetry. apply Z.abs_eq. lia.
  - assert (Hp : 0 < 2 ^ (- e)) by (apply pow2_pos; lia).
    assert (Hden : Zpos (Z.to_pos (2 ^ (- e))) = 2 ^ (- e)) by (apply Z2Pos.id; lia).
    assert (Hpos : 0 < Zpos m * k) by (apply Z.mul_pos_pos; lia).
    assert (Hnn : 0 <= (2 * Zpos m * k + 2 ^ (- e)) / (2 * 2 ^ (- e)))
      by (apply Z.div_pos; lia).
    assert (Hre : 2 * (Zpos m * k) = 2 * Zpos m * k) by ring.
    destruct s; cbn [cond_Zopp].
    + rewrite Qle_bool_0_scaled.
      destruct (Z.leb_spec 0 (- Zpos m * k)) as [Hc|_]; [exfalso; lia|].
      change (- Zpos m # Z.to_pos (2 ^ (- e))) with (- (Zpos m) # Z.to_pos (2 ^ (- e))).
      rewrite Qopp_scaled, Qfloor_scaled, Hden, Hre, Z.abs_opp.
      symmetry. apply Z.abs_eq. exact Hnn.
    + rewrite Qle_bool_0_scaled.
      destruct (Z.leb_spec 0 (Zpos m * k)) as [_|Hc]; [|exfalso; lia].
      rewrite Qfloor_scaled, Hden, Hre. symmetry. apply Z.abs_eq. exact Hnn.
Qed.

Lemma round2_finite (s : bool) (m : positive) (e : Z) :
  round2 (S754_finite s m e)
  = Normal (if ge_1e21 m e then S754_finite s m e
            else of_decimal s (Z.abs (round_half_away
                                        (Q_of (S754_finite s m e) * inject_Z 100))) 2).
Proof.
  unfold round2, toFixed. cbn [Z.ltb Z.compare orb bind].
  change (Z.to_nat 2) with 2%nat.
  destruct (ge_1e21 m e); cbn [bind ToNumber].
  - destruct s; reflexivity.
  - rewrite (nearest_scaled_half_away s m e 2). reflexivity.
Qed.

(** From [10^21] on, a binary64 value is an integer. *)
Lemma ge_1e21_integer (m : positive) (e : Z) :
  bounded prec emax m e = true -> ge_1e21 m e = true -> 0 <= e.
Proof.
  intros Hb Hge. apply bounded_inv in Hb. destruct Hb as (Hm & _ & _).
  unfold ge_1e21 in Hge. destruct (Z.leb_spec 0 e) as [|He]; [assumption|exfalso].
  apply Z.leb_le in Hge.
  assert (Hp : 1 <= 2 ^ (- e)) by (pose proof (pow2_pos (- e)); lia).
  change (2 ^ 53) with 9007199254740992 in Hm.
  change (10 ^ 21) with 1000000000000000000000 in Hge. lia.
Qed.

(** The tax is not the half-away rounding of the exact product.  On a
    subtotal of 130 the exact product with 0.0825, 10.725, rounds half
    away from zero to 10.73, and so does the exact product with the
    binary64 number nearest to 0.0825; the binary64 product lies below
    10.725 and the page shows 10.72, and a total of 146.71. *)
Lemma tax_of_130_is_10_72 :
  subtotal ten_of_each = of_Z 130 /\
  spec_tax_cents ten_of_each = 1073 /\
  round_half_away (Q_of (subtotal ten_of_each) * Q_of TAX_RATE * inject_Z 100) = 1073 /\
  Qcompare (Q_of (mul (subtotal ten_of_each) TAX_RATE)) (10725 # 1000) = Lt /\
  tax ten_of_each = Normal (of_decimal false 1072 2) /\
  tax ten_of_each <> Normal (of_decimal false (spec_tax_cents ten_of_each) 2) /\
  summarize ten_of_each =
    Normal {| summary_subtotal := of_Z 130;
              summary_tax := of_decimal false 1072 2;
              summary_shipping := of_decimal false 599 2;
              summary_total := of_decimal false 14671 2 |}.
Proof.
  split; [vm_compute; reflexivity|]. split; [vm_compute; reflexivity|].
  split; [vm_compute; reflexivity|]. split; [vm_compute; reflexivity|].
  split; [vm_compute; reflexivity|]. split; [vm_compute; discriminate|].
  vm_compute. reflexivity.
Qed.

(** C2 (amended).  The summary holds [tax = round2 (subtotal * 0.0825)]
    and [total = round2 (subtotal + tax + shipping)], the rounded tax
    entering the total, where the product and the sums are the binary64
    ones, each rounded to the nearest number, and 0.0825 and 5.99 the
    numbers nearest to these decimals.  [round2] takes the exact value of
    the binary64 number it is given: a finite number below [10^21] is
    shown with the two decimals of that value rounded half away from
    zero, and the number nearest to that decimal is read; a number from
    [10^21] on, an integer, is left as it is.  The cart of one 4.00 print
    taken twice gives 8, 0.66, 5.99 and 14.65; ten 4.00 prints and ten
    9.00 prints give 130, 10.72, 5.99 and 146.71. *)
Theorem summarize_two_step_rounding :
  (forall cartItems, exists t tot,
      round2 (mul (subtotal cartItems) (of_decimal false 825 4)) = Normal t /\
      round2 (add (add (subtotal cartItems) t) (shipping cartItems)) = Normal tot /\
      summarize cartItems =
        Normal {| summary_subtotal := subtotal cartItems; summary_tax := t;
                  summary_shipping := shipping cartItems; summary_total := tot |} /\
      (forall s m e,
          mul (subtotal cartItems) (of_decimal false 825 4) = S754_finite s m e ->
          ge_1e21 m e = false ->
          t = of_decimal s
                (Z.abs (round_half_away
                   (Q_of (mul (subtotal cartItems) (of_decimal false 825 4))
                    * inject_Z 100))) 2) /\
      (forall s m e,
          add (add (subtotal cartItems) t) (shipping cartItems) = S754_finite s m e ->
          ge_1e21 m e = false ->
          tot = of_decimal s
                  (Z.abs (round_half_away
                     (Q_of (add (add (subtotal cartItems) t) (shipping cartItems))
                      * inject_Z 100))) 2))
  /\ (forall s m e,
        round2 (S754_finite s m e)
        = Normal (if ge_1e21 m e then S754_finite s m e
                  else of_decimal s (Z.abs (round_half_away
                         (Q_of (S754_finite s m e) * inject_Z 100))) 2))
  /\ (forall s m e, bounded prec emax m e = true -> ge_1e21 m e = true ->
        round2 (S754_finite s m e) = Normal (S754_finite s m e) /\ 0 <= e)
  /\ (forall s, round2 (S754_zero s) = Normal zero)
  /\ summarize [photo "s1-a" "5x7" 2] =
       Normal {| summary_subtotal := of_Z 8;
                 summary_tax := of_decimal false 66 2;
                 summary_shipping := of_decimal false 599 2;
                 summary_total := of_decimal false 1465 2 |}
  /\ summarize ten_of_each =
       Normal {| summary_subtotal := of_Z 130;
                 summary_tax := of_decimal false 1072 2;
                 summary_shipping := of_decimal false 599 2;
                 summary_total := of_decimal false 14671 2 |}.
Proof.
  split; [|split; [|split; [|split; [|split]]]].
  - intros cartItems.
    destruct (summarize_returns cartItems) as (t & tot & Ht & Htot & Hs).
    unfold total in Htot. rewrite Ht in Htot. cbn [bind] in Htot.
    unfold tax in Ht. change TAX_RATE with (of_decimal false 825 4) in Ht.
    exists t, tot. split; [exact Ht|]. split; [exact Htot|]. split; [exact Hs|]. split.
    + intros s m e Hx Hlt. rewrite Hx in Ht |- *.
      rewrite round2_finite, Hlt in Ht. congruence.
    + intros s m e Hx Hlt. rewrite Hx in Htot |- *.
      rewrite round2_finite, Hlt in Htot. congruence.
  - exact round2_finite.
  - intros s m e Hb Hge. split; [|exact (ge_1e21_integer m e Hb Hge)].
    rewrite round2_finite, Hge. reflexivity.
  - intros s. reflexivity.
  - vm_compute. reflexivity.
  - vm_compute. reflexivity.
Qed.

Lemma summarize_two_step_rounding_witness :
  (exists t tot,
      summarize ten_of_each =
        Normal {| summary_subtotal := subtotal ten_of_each; summary_tax := t;
                  summary_shipping := shipping ten_of_each; summary_total := tot |} /\
      t = of_decimal false
            (Z.abs (round_half_away
               (Q_of (mul (subtotal ten_of_each) (of_decimal false 825 4))
                * inject_Z 100))) 2 /\
      tot = of_decimal false
              (Z.abs (round_half_away
                 (Q_of (add (add (subtotal ten_of_each) t) (shipping ten_of_each))
                  * inject_Z 100))) 2) /\
  (round2 (of_Z (10 ^ 21)) = Normal (of_Z (10 ^ 21)) /\ 0 <= 17).
Proof.
  destruct summarize_two_step_rounding as (Hsum & _ & Hbig & _).
  split.
  - destruct (Hsum ten_of_each) as (t & tot & Ht & _ & Hs & Hqt & Hqtot).
    exists t, tot. split; [exact Hs|].
    assert (Et : t = of_decimal false 1072 2)
      by (vm_compute in Ht; injection Ht as <-; vm_compute; reflexivity).
    split.
    + apply (Hqt false 6037638250443571%positive (-49)); vm_compute; reflexivity.
    + apply (Hqtot false 5161899229152543%positive (-45)).
      * rewrite Et. vm_compute. reflexivity.
      * vm_compute. reflexivity.
  - apply (Hbig false 7629394531250000%positive 17).
    + reflexivity.
    + vm_compute. reflexivity.
Defined.

(** ** Failure behaviour *)

(** A negative quantity is not turned into zero or a default: two 4.00
    prints at quantity -2 are priced -8, and the summary follows. *)
Lemma negative_quantity_not_zeroed :
  lt (quantity (photo "s1-a" "5x7" (-2))) zero = true /\
  getItemPrice (photo "s1-a" "5x7" (-2)) = of_Z (-8) /\
  getItemPrice (photo "s1-a" "5x7" (-2)) <> zero /\
  summarize [photo "s1-a" "5x7" (-2)] =
    Normal {| summary_subtotal := of_Z (-8);
              summary_tax := of_decimal true 66 2;
              summary_shipping := of_decimal false 599 2;
              summary_total := of_decimal true 267 2 |}.
Proof.
  split; [reflexivity|]. split; [vm_compute; reflexivity|].
  split; [vm_compute; discriminate|]. vm_compute. reflexivity.
Qed.

(** C8 (amended).  The summary of every cart is produced, without an
    exception.  "Place Order" returns normally when nothing, or the empty
    text, is stored under the key, and when the stored text parses to an
    array (as the text the page writes does) or to a string; it fails
    with the exception of [JSON.parse] when the stored text is not JSON,
    and with a TypeError when the text parses to null, a boolean, a
    number or an object.  A selected size that is not listed prices the
    item at 0.  A quantity is used as it is, negative or not: the item is
    priced at the first entry carrying the selected label times the
    quantity. *)
Theorem operations_do_not_throw (cartItems : list CartItem) :
  (exists s, summarize cartItems = Normal s) /\
  (forall JSON : JSONObject,
     (exists written, handlePlaceOrder JSON cartItems None = Normal (Some written)) /\
     (exists written, handlePlaceOrder JSON cartItems (Some "") = Normal (Some written)) /\
     forall stored : string, stored <> "" ->
       (forall e, JSON_parse JSON stored = Throw e ->
                  handlePlaceOrder JSON cartItems (Some stored) = Throw e) /\
       (forall v, JSON_parse JSON stored = Normal v ->
          match v with
          | JSArray elements =>
              handlePlaceOrder JSON cartItems (Some stored)
              = Normal (Some (JSON_stringify JSON
                                (JSArray (new_Set_of_values
                                            (elements ++ map JSString (sessionIds cartItems))))))
          | JSString _ =>
              exists written,
                handlePlaceOrder JSON cartItems (Some stored) = Normal (Some written)
          | JSNull | JSBoolean _ | JSNumber _ | JSObject _ =>
              handlePlaceOrder JSON cartItems (Some stored) = Throw TypeError
          end)) /\
  forall item,
    ((forall e, In e (printSizes item) -> label e <> selectedSize item) ->
     getItemPrice item = zero) /\
    (forall pre e post,
        printSizes item = (pre ++ e :: post)%list ->
        label e = selectedSize item ->
        (forall x, In x pre -> label x <> selectedSize item) ->
        getItemPrice item = mul (price e) (quantity item)).
Proof.
  split; [|split].
  - destruct (summarize_returns cartItems) as (t & tot & _ & _ & Hs). eexists. exact Hs.
  - intros JSON. split; [|split].
    + eexists. apply handlePlaceOrder_null.
    + eexists. reflexivity.
    + intros stored Hne. unfold handlePlaceOrder.
      destruct stored as [|c rest]; [congruence|]. split.
      * intros e ->. reflexivity.
      * intros v ->. destruct v; cbn [bind spread]; try reflexivity.
        eexists. reflexivity.
  - intros item. split.
    + intros Hno. unfold getItemPrice. rewrite (find_no_match _ _ Hno). reflexivity.
    + intros pre e post Hsplit He Hpre. unfold getItemPrice.
      rewrite (find_first_match item pre post e Hsplit He Hpre). reflexivity.
Qed.

Lemma operations_do_not_throw_witness :
  handlePlaceOrder JSON_of_examples [photo "s1-a" "5x7" 2] (Some "not json")
  = Throw SyntaxError /\
  handlePlaceOrder JSON_of_examples [photo "s1-a" "5x7" 2] (Some "5") = Throw TypeError /\
  handlePlaceOrder JSON_of_examples [photo "s1-a" "5x7" 2] (Some text_s0)
  = Normal (Some text_s0_s1) /\
  getItemPrice (photo "s1-a" "4x6" 2) = zero /\
  getItemPrice twice_listed = mul (of_Z 4) (of_Z 1).
Proof.
  destruct (operations_do_not_throw [photo "s1-a" "5x7" 2]) as (_ & HJSON & H).
  destruct (HJSON JSON_of_examples) as (_ & _ & Hstored).
  split; [|split; [|split; [|split]]].
  - apply (proj1 (Hstored "not json" ltac:(discriminate)) SyntaxError). reflexivity.
  - exact (proj2 (Hstored "5" ltac:(discriminate)) (JSNumber (of_Z 5)) eq_refl).
  - exact (proj2 (Hstored text_s0 ltac:(vm_compute; discriminate))
             (JSArray [JSString "s0"]) eq_refl).
  - apply (proj1 (H (photo "s1-a" "4x6" 2))).
    simpl. intros e [<-|[<-|[]]]; simpl; discriminate.
  - apply (proj2 (H twice_listed) [] size_5x7 [{| label := "5x7"; price := of_Z 6 |}]).
    + reflexivity.
    + reflexivity.
    + intros x [].
Defined.

(** ** More on session ids and the stored list *)

(** X1.  An id of the form [sid-suffix] whose [sid] has no "-" yields
    [sid]; an id without "-" yields itself; in every case the session id
    has no "-". *)
Theorem sessionIdOf_round_trip (item : CartItem) :
  (forall sid suffix, no_dash sid -> id item = sid ++ String "-" suffix ->
                      sessionIdOf item = sid) /\
  (no_dash (id item) -> sessionIdOf item = id item) /\
  no_dash (sessionIdOf item).
Proof.
  unfold sessionIdOf. repeat split.
  - intros sid suffix Hnd Hid. symmetry. apply prefix_is_first_segment.
    split; [exact Hnd|]. right. exists suffix. exact Hid.
  - intros Hnd. symmetry. apply prefix_is_first_segment.
    split; [exact Hnd|]. left. reflexivity.
  - apply (first_segment_is_prefix (id item)).
Qed.

Lemma sessionIdOf_round_trip_witness :
  sessionIdOf (photo "s1-a" "5x7" 2) = "s1" /\ sessionIdOf (photo "abc" "5x7" 2) = "abc".
Proof.
  destruct (sessionIdOf_round_trip (photo "s1-a" "5x7" 2)) as (H1 & _ & _).
  destruct (sessionIdOf_round_trip (photo "abc" "5x7" 2)) as (_ & H2 & _).
  split.
  - apply (H1 "s1" "a"); [simpl; repeat split; discriminate | reflexivity].
  - apply H2. simpl. repeat split; discriminate.
Defined.

Lemma absent_app_fresh (acc l : list string) (x : string) :
  ~ In x l -> filter (absent (acc ++ [x])) l = filter (absent acc) l.
Proof.
  intros Hx. apply filter_ext_in. intros y Hy. unfold absent.
  destruct (in_dec string_dec y (acc ++ [x])) as [H1|H1];
    destruct (in_dec string_dec y acc) as [H2|H2]; try reflexivity.
  - apply in_app_or in H1. destruct H1 as [H1|[<-|[]]]; contradiction.
  - exfalso. apply H1. apply in_or_app. left. exact H2.
Qed.

Lemma fold_Set_add_append (l acc : list string) :
  NoDup l -> fold_left Set_add l acc = (acc ++ filter (absent acc) l)%list.
Proof.
  revert acc. induction l as [|x l IH]; intros acc Hnd; simpl.
  - symmetry. apply app_nil_r.
  - inversion Hnd as [|? ? Hx Hnd']; subst.
    unfold Set_add at 2, absent at 1.
    destruct (in_dec string_dec x acc) as [Hin|Hin].
    + apply IH. exact Hnd'.
    + rewrite IH by exact Hnd'. rewrite absent_app_fresh by exact Hx.
      rewrite <- app_assoc. reflexivity.
Qed.

Lemma absent_new_Set (l : list string) (s : string) :
  absent (new_Set l) s = absent l s.
Proof.
  unfold absent.
  destruct (in_dec string_dec s (new_Set l)) as [H1|H1];
    destruct (in_dec string_dec s l) as [H2|H2]; try reflexivity;
    rewrite new_Set_In in H1; contradiction.
Qed.

(** X2.  "Place Order" keeps the stored ids, in their order and without
    their repetitions, and appends the session ids of the cart that were
    not stored, in the order of their first item. *)
Theorem placeOrder_appends (cartItems : list CartItem) (orderedSessions : list string) :
  placeOrder cartItems orderedSessions
  = (new_Set orderedSessions
     ++ filter (absent orderedSessions) (sessionIds cartItems))%list.
Proof.
  unfold placeOrder, Array_from. unfold new_Set at 1. rewrite fold_left_app.
  change (fold_left Set_add orderedSessions []) with (new_Set orderedSessions).
  unfold sessionIds, Array_from.
  rewrite fold_Set_add_append by apply new_Set_NoDup.
  f_equal. apply filter_ext. intros s. apply absent_new_Set.
Qed.

Lemma Set_add_member (s : list string) (x : string) : In x s -> Set_add s x = s.
Proof.
  intros H. unfold Set_add. destruct (in_dec string_dec x s); [reflexivity | contradiction].
Qed.

Lemma Set_add_fresh (s : list string) (x : string) :
  ~ In x s -> Set_add s x = (s ++ [x])%list.
Proof.
  intros H. unfold Set_add. destruct (in_dec string_dec x s); [contradiction | reflexivity].
Qed.

Lemma fold_Set_add_new_Set (l acc : list string) :
  fold_left Set_add (new_Set l) acc = fold_left Set_add l acc.
Proof.
  induction l as [|x l IH] using rev_ind.
  - reflexivity.
  - unfold new_Set in *. rewrite !fold_left_app. cbn [fold_left].
    rewrite <- IH.
    destruct (in_dec string_dec x (fold_left Set_add l [])) as [H1|H1].
    + rewrite (Set_add_member _ x H1). symmetry. apply Set_add_member.
      rewrite fold_Set_add_In. right. exact H1.
    + rewrite (Set_add_fresh _ x H1), fold_left_app. reflexivity.
Qed.

Lemma placeOrder_fold (cartItems : list CartItem) (orderedSessions : list string) :
  placeOrder cartItems orderedSessions
  = fold_left Set_add (map sessionIdOf cartItems) (new_Set orderedSessions).
Proof.
  unfold placeOrder, sessionIds, Array_from. unfold new_Set at 1.
  rewrite fold_left_app. apply fold_Set_add_new_Set.
Qed.

(** X3.  Placing one cart made of two parts stores the same list as
    placing the first part and then the second. *)
Theorem placeOrder_app (first second : list CartItem) (orderedSessions : list string) :
  placeOrder (first ++ second) orderedSessions
  = placeOrder second (placeOrder first orderedSessions).
Proof.
  rewrite !placeOrder_fold, map_app, fold_left_app.
  rewrite (new_Set_of_NoDup (fold_left Set_add _ _))
    by (apply fold_Set_add_NoDup, new_Set_NoDup).
  reflexivity.
Qed.

(** ** Exact arithmetic on integers *)

(** The sum of two binary64 values of positive sign. *)
Lemma add_finite (mx my : positive) (ex ey : Z) :
  -1074 <= ex -> -1074 <= ey ->
  exists S ez,
    - scale <= ez /\ -1074 <= ez /\
    val (Zpos S) ez = val (Zpos mx) ex + val (Zpos my) ey /\
    add (S754_finite false mx ex) (S754_finite false my ey)
    = binary_round prec emax false S ez.
Proof.
  intros Hex Hey. set (ez := Z.min ex ey).
  exists (fst (shl_align mx ex ez) + fst (shl_align my ey ez))%positive, ez.
  assert (Hva := val_shl_align mx ex ez ltac:(unfold scale; lia) ltac:(unfold ez, scale; lia)).
  assert (Hvb := val_shl_align my ey ez ltac:(unfold scale; lia) ltac:(unfold ez, scale; lia)).
  replace (Z.min ex ez) with ez in Hva by (unfold ez; lia).
  replace (Z.min ey ez) with ez in Hvb by (unfold ez; lia).
  split; [unfold ez, scale; lia|]. split; [unfold ez; lia|]. split.
  - rewrite <- Hva, <- Hvb. unfold val. rewrite Pos2Z.inj_add. ring.
  - reflexivity.
Qed.

Lemma of_Z_0 : of_Z 0 = S754_zero false.
Proof. reflexivity. Qed.

Lemma add_integers (a b : Z) :
  0 <= a -> 0 <= b -> a + b <= 2 ^ 53 ->
  add (of_Z a) (of_Z b) = of_Z (a + b).
Proof.
  intros Ha Hb Hab.
  destruct (Z.eq_dec a 0) as [->|Ha0].
  - rewrite of_Z_0. simpl (0 + b).
    destruct (Z.eq_dec b 0) as [->|Hb0]; [reflexivity|].
    destruct (of_Z_small b ltac:(lia)) as (mb & eb & -> & _). reflexivity.
  - destruct (of_Z_small a ltac:(lia)) as (ma & ea & Hofa & Hba & Hva). rewrite Hofa.
    destruct (Z.eq_dec b 0) as [->|Hb0].
    + rewrite of_Z_0, Z.add_0_r, Hofa. reflexivity.
    + destruct (of_Z_small b ltac:(lia)) as (mb & eb & Hofb & Hbb & Hvb). rewrite Hofb.
      destruct (of_Z_small (a + b) ltac:(lia)) as (mc & ec & Hofc & Hbc & Hvc).
      rewrite Hofc.
      pose proof (bounded_inv ma ea Hba) as (_ & Hea & _).
      pose proof (bounded_inv mb eb Hbb) as (_ & Heb & _).
      destruct (add_finite ma mb ea eb ltac:(lia) ltac:(lia))
        as (S & ez & HE & _ & HS & ->).
      apply binary_round_exact; [exact HE | exact Hbc |].
      rewrite HS, Hva, Hvb, Hvc. ring.
Qed.

Lemma sub_one_integer (n : Z) :
  1 <= n <= 2 ^ 53 ->
  Math_max (of_Z 1) (sub (of_Z n) (of_Z 1)) = of_Z (Z.max 1 (n - 1)).
Proof.
  intros Hn. rewrite of_Z_1.
  destruct (of_Z_small n Hn) as (mn & en & Hofn & Hbn & Hvn). rewrite Hofn.
  pose proof (bounded_inv mn en Hbn) as (_ & Hen & _).
  destruct (sub_finite mn 4503599627370496 en (-52) ltac:(lia) ltac:(lia))
    as (D & ez & HE & HD & ->).
  assert (H1 : val 4503599627370496 (-52) = 2 ^ scale) by (vm_compute; reflexivity).
  rewrite Hvn, H1 in HD.
  assert (Hp : 0 < 2 ^ (ez + scale)) by (apply pow2_pos; lia).
  assert (Hs : 0 < 2 ^ scale) by (apply pow2_pos; unfold scale; lia).
  destruct (Z.eq_dec n 1) as [->|Hn1].
  - assert (D = 0) by (unfold val in HD; nia). subst D. reflexivity.
  - replace (Z.max 1 (n - 1)) with (n - 1) by lia.
    destruct (of_Z_small (n - 1) ltac:(lia)) as (m' & e' & Hof' & Hb' & Hv').
    assert (HDpos : 0 < D) by (unfold val in HD; nia).
    destruct D as [|pd|pd]; try lia.
    simpl binary_normalize.
    rewrite (binary_round_exact false pd ez HE m' e' Hb')
      by (rewrite Hv', HD; ring).
    rewrite Hof'. unfold Math_max.
    rewrite (SFcompare_val 4503599627370496 m' (-52) e' eq_refl Hb'), H1, Hv'.
    destruct (Z.compare_spec (2 ^ scale) ((n - 1) * 2 ^ scale)) as [Heq|Hlt|Hgt].
    + assert (Hval : val 4503599627370496 (-52) = val (Zpos m') e')
        by (rewrite H1, Hv'; exact Heq).
      destruct (val_canonical_unique 4503599627370496 m' (-52) e' eq_refl Hb' Hval)
        as [<- <-].
      reflexivity.
    + reflexivity.
    + exfalso. nia.
Qed.

(** ** The quantity buttons *)

(** X4.  On an integer quantity [n] below [2^53] the "+" button hands
    over [n + 1]; at [2^53] it hands over [2^53] again. *)
Theorem increaseQuantity_integer (item : CartItem) :
  (forall n, 0 <= n < 2 ^ 53 -> quantity item = of_Z n ->
             increaseQuantity item = of_Z (n + 1)) /\
  (quantity item = of_Z (2 ^ 53) -> increaseQuantity item = of_Z (2 ^ 53)).
Proof.
  unfold increaseQuantity. split.
  - intros n Hn ->. apply add_integers; lia.
  - intros ->. vm_compute. reflexivity.
Qed.

Lemma increaseQuantity_integer_witness :
  increaseQuantity (photo "s1-a" "5x7" 3) = of_Z 4.
Proof.
  apply (proj1 (increaseQuantity_integer (photo "s1-a" "5x7" 3)) 3).
  - vm_compute. split; [discriminate | reflexivity].
  - reflexivity.
Defined.

(** X5.  On an integer quantity [n]: "-" after "+" gives [n] back when
    [1 <= n < 2^53]; "+" after "-" gives [n] back when [2 <= n <= 2^53],
    and gives 2 at [n = 1].  Beyond these bounds the sums round: at
    [2^53], "-" after "+" gives [2^53 - 1]; at [2^53 + 2], "+" after "-"
    gives [2^53]. *)
Theorem plus_minus_round_trip (item : CartItem) (n : Z) :
  quantity item = of_Z n ->
  (1 <= n < 2 ^ 53 -> quantity (pressMinus (pressPlus item)) = quantity item) /\
  (2 <= n <= 2 ^ 53 -> quantity (pressPlus (pressMinus item)) = quantity item) /\
  (n = 1 -> quantity (pressPlus (pressMinus item)) = of_Z 2) /\
  (n = 2 ^ 53 ->
     quantity (pressMinus (pressPlus item)) = of_Z (2 ^ 53 - 1) /\
     quantity (pressMinus (pressPlus item)) <> quantity item) /\
  (n = 2 ^ 53 + 2 ->
     quantity (pressPlus (pressMinus item)) = of_Z (2 ^ 53) /\
     quantity (pressPlus (pressMinus item)) <> quantity item).
Proof.
  intros Hq. unfold pressMinus, pressPlus, with_quantity, decreaseQuantity,
    increaseQuantity. cbn [quantity]. rewrite Hq.
  split; [|split; [|split; [|split]]].
  - intros Hn. rewrite add_integers by lia. rewrite sub_one_integer by lia.
    f_equal. lia.
  - intros Hn. rewrite sub_one_integer by lia.
    replace (Z.max 1 (n - 1)) with (n - 1) by lia.
    rewrite add_integers by lia. f_equal. lia.
  - intros ->. vm_compute. reflexivity.
  - intros ->. split; [vm_compute; reflexivity | vm_compute; discriminate].
  - intros ->. split; [vm_compute; reflexivity | vm_compute; discriminate].
Qed.

Lemma plus_minus_round_trip_witness :
  quantity (pressMinus (pressPlus (photo "s1-a" "5x7" 3))) = of_Z 3 /\
  quantity (pressPlus (pressMinus (photo "s1-a" "5x7" 3))) = of_Z 3 /\
  quantity (pressPlus (pressMinus (photo "s1-a" "5x7" 1))) = of_Z 2.
Proof.
  split; [|split].
  - apply (proj1 (plus_minus_round_trip (photo "s1-a" "5x7" 3) 3 eq_refl)).
    vm_compute. split; [discriminate | reflexivity].
  - apply (proj1 (proj2 (plus_minus_round_trip (photo "s1-a" "5x7" 3) 3 eq_refl))).
    vm_compute. split; discriminate.
  - apply (proj1 (proj2 (proj2 (plus_minus_round_trip (photo "s1-a" "5x7" 1) 1 eq_refl)))).
    reflexivity.
Defined.

(** ** Products *)

Lemma binary_round_aux_exact (s : bool) (M : positive) (E : Z) (mb : positive) (eb : Z) :
  E <= fexp prec emax (Zpos (digits2_pos M) + E) -> - scale <= E ->
  bounded prec emax mb eb = true ->
  val (Zpos M) E = val (Zpos mb) eb ->
  binary_round_aux prec emax s (Zpos M) E loc_Exact = S754_finite s mb eb.
Proof.
  intros Hpre HE Hb Hv.
  assert (Hp : 0 < 2 ^ (eb + scale)).
  { apply bounded_inv in Hb. apply pow2_pos. unfold scale. lia. }
  destruct (binary_round_aux_upper s M E Hpre HE mb eb Hb ltac:(lia))
    as [H0|(m1 & x1 & H1 & Hb1 & Hle)];
  destruct (binary_round_aux_lower s M E Hpre HE mb eb Hb ltac:(lia))
    as [Hi|(m2 & x2 & H2 & Hb2 & Hge)];
    try congruence.
  rewrite H1 in H2. injection H2 as <- <-.
  destruct (val_canonical_unique m1 mb x1 eb Hb1 Hb ltac:(lia)) as [-> ->].
  exact H1.
Qed.

(** The product of two binary64 mantissas is wide enough to be rounded
    without a preliminary shift. *)
Lemma mul_no_shift (mx my : positive) (ex ey : Z) :
  bounded prec emax mx ex = true -> bounded prec emax my ey = true ->
  ex + ey <= fexp prec emax (Zpos (digits2_pos (mx * my)) + (ex + ey))
  /\ - scale <= ex + ey.
Proof.
  intros Hx Hy. apply bounded_inv in Hx. apply bounded_inv in Hy.
  destruct Hx as (_ & Hex & Hcx). destruct Hy as (_ & Hey & Hcy).
  split; [|unfold scale; lia]. rewrite fexp_eq.
  destruct Hcy as [Hcy|Hcy].
  - pose proof (digits2_pos_mul_ge mx my Hcy). lia.
  - destruct Hcx as [Hcx|Hcx].
    + pose proof (digits2_pos_mul_ge my mx Hcx) as H.
      rewrite Pos.mul_comm in H. lia.
    + lia.
Qed.

Lemma of_Z_small_normal (n : Z) :
  1 <= n <= 2 ^ 53 ->
  exists mb eb, of_Z n = S754_finite false mb eb /\ bounded prec emax mb eb = true /\
                val (Zpos mb) eb = n * 2 ^ scale /\ 2 ^ 52 <= Zpos mb.
Proof.
  intros Hn. destruct (of_Z_small n Hn) as (mb & eb & Hof & Hb & Hv).
  exists mb, eb. repeat split; try assumption.
  pose proof (bounded_inv mb eb Hb) as (Hm & He & [Hc|Hc]); [exact Hc|exfalso].
  subst eb. unfold val in Hv.
  assert (Hs : 2 ^ scale = 2 ^ 1074 * 2 ^ (-1074 + scale))
    by (rewrite <- pow2_split by (unfold scale; lia); reflexivity).
  assert (Hp : 0 < 2 ^ (-1074 + scale)) by (apply pow2_pos; unfold scale; lia).
  rewrite Hs in Hv.
  assert (Hbig : 2 ^ 53 <= 2 ^ 1074) by (apply Z.pow_le_mono_r; lia).
  generalize dependent (2 ^ 1074). generalize dependent (2 ^ 53).
  generalize dependent (2 ^ (-1074 + scale)). clear. intros. nia.
Qed.

Lemma mul_integers (a b : Z) :
  0 <= a <= 2 ^ 53 -> 0 <= b <= 2 ^ 53 -> a * b <= 2 ^ 53 ->
  mul (of_Z a) (of_Z b) = of_Z (a * b).
Proof.
  intros Ha Hb Hab.
  destruct (Z.eq_dec a 0) as [->|Ha0].
  - rewrite of_Z_0. simpl (0 * b).
    destruct (Z.eq_dec b 0) as [->|Hb0]; [reflexivity|].
    destruct (of_Z_small b ltac:(lia)) as (mb & eb & -> & _). reflexivity.
  - destruct (Z.eq_dec b 0) as [->|Hb0].
    + destruct (of_Z_small a ltac:(lia)) as (ma & ea & -> & _).
      rewrite Z.mul_0_r. reflexivity.
    + 
      destruct (of_Z_small a ltac:(lia)) as (ma & ea & Hofa & Hba & Hva).
      destruct (of_Z_small b ltac:(lia)) as (mb & eb & Hofb & Hbb & Hvb).
      destruct (of_Z_small (a * b) ltac:(nia)) as (mc & ec & Hofc & Hbc & Hvc).
      rewrite Hofa, Hofb, Hofc. unfold mul, SFmul. change (xorb false false) with false.
      destruct (mul_no_shift ma mb ea eb Hba Hbb) as [Hpre HE].
      apply binary_round_aux_exact; try assumption.
      rewrite Hvc.
      pose proof (bounded_inv ma ea Hba) as (_ & Hea & _).
      pose proof (bounded_inv mb eb Hbb) as (_ & Heb & _).
      assert (Hs : 0 < 2 ^ scale) by (apply pow2_pos; unfold scale; lia).
      assert (Hsplit : 2 ^ (ea + scale) * 2 ^ (eb + scale)
                       = 2 ^ (ea + eb + scale) * 2 ^ scale).
      { rewrite <- !pow2_split by (unfold scale; lia). f_equal. lia. }
      unfold val in *. rewrite Pos2Z.inj_mul.
      apply (Z.mul_reg_r _ _ (2 ^ scale)); [lia|].
      transitivity ((Zpos ma * 2 ^ (ea + scale)) * (Zpos mb * 2 ^ (eb + scale))).
      * rewrite <- Z.mul_assoc, <- Hsplit. ring.
      * rewrite Hva, Hvb. ring.
Qed.

(** X7.  When the price and the quantity are integers from 0 to [2^53]
    whose product is at most [2^53], the line price is their exact
    product. *)
Theorem getItemPrice_integer (item : CartItem) (e : PrintSize) (a b : Z) :
  NoDup (map label (printSizes item)) ->
  In e (printSizes item) -> label e = selectedSize item ->
  price e = of_Z a -> quantity item = of_Z b ->
  0 <= a <= 2 ^ 53 -> 0 <= b <= 2 ^ 53 -> a * b <= 2 ^ 53 ->
  getItemPrice item = of_Z (a * b).
Proof.
  intros Hnd Hin He Hp Hq Ha Hb Hab. unfold getItemPrice.
  rewrite (find_unique_label _ _ e Hnd Hin He), Hp, Hq.
  apply mul_integers; assumption.
Qed.

Lemma getItemPrice_integer_witness :
  getItemPrice (photo "s1-b" "8x10" 3) = of_Z 27.
Proof.
  apply (getItemPrice_integer (photo "s1-b" "8x10" 3) size_8x10 9 3).
  - simpl. repeat constructor; simpl; intuition discriminate.
  - simpl. auto.
  - reflexivity.
  - reflexivity.
  - reflexivity.
  - vm_compute. split; discriminate.
  - vm_compute. split; discriminate.
  - vm_compute. discriminate.
Defined.

Lemma fold_add_integers (items : list CartItem) (zs : list Z) (acc : Z) :
  Forall2 (fun item z => getItemPrice item = of_Z z /\ 0 <= z) items zs ->
  0 <= acc -> acc + fold_right Z.add 0 zs <= 2 ^ 53 ->
  fold_left (fun sum item => add sum (getItemPrice item)) items (of_Z acc)
  = of_Z (acc + fold_right Z.add 0 zs).
Proof.
  intros H. revert acc. induction H as [|item z items zs [Hp Hz] Htail IH]; intros acc Hacc Hsum.
  - simpl. f_equal. lia.
  - simpl in *.
    assert (Hrest : 0 <= fold_right Z.add 0 zs).
    { clear - Htail. induction Htail as [|? ? ? ? [_ ?] _ ?]; simpl; lia. }
    rewrite Hp, add_integers by lia. rewrite IH by lia. f_equal. lia.
Qed.

(** X8.  When every line price is a non-negative integer and their sum is
    at most [2^53], the subtotal is the exact sum. *)
Theorem subtotal_integers (cartItems : list CartItem) (zs : list Z) :
  Forall2 (fun item z => getItemPrice item = of_Z z /\ 0 <= z) cartItems zs ->
  fold_right Z.add 0 zs <= 2 ^ 53 ->
  subtotal cartItems = of_Z (fold_right Z.add 0 zs).
Proof.
  intros H Hsum. unfold subtotal. change zero with (of_Z 0).
  rewrite (fold_add_integers cartItems zs 0 H) by lia. reflexivity.
Qed.

Lemma subtotal_integers_witness :
  subtotal [photo "s1-a" "5x7" 2; photo "s1-b" "8x10" 3] = of_Z 35.
Proof.
  apply (subtotal_integers [photo "s1-a" "5x7" 2; photo "s1-b" "8x10" 3] [8; 27]).
  - repeat constructor; try (vm_compute; reflexivity); discriminate.
  - vm_compute. discriminate.
Defined.

(** ** Binary64 values stay binary64 values *)

Lemma binary_round_is_number (s : bool) (M : positive) (E : Z) :
  - scale <= E -> is_number (binary_round prec emax s M E).
Proof.
  intros HE. unfold is_number.
  destruct (binary_round_cases s M E HE) as [H|[H|(m & e & H & Hb)]]; rewrite H;
    [reflexivity | reflexivity | exact Hb].
Qed.

Lemma binary_round_not_zero (s s' : bool) (M : positive) (E : Z) :
  -1074 <= E -> binary_round prec emax s M E <> S754_zero s'.
Proof.
  intros HE.
  assert (Hv : val 1 (-1074) <= val (Zpos M) E).
  { unfold val.
    assert (2 ^ (-1074 + scale) <= 2 ^ (E + scale))
      by (apply Z.pow_le_mono_r; unfold scale; lia).
    assert (0 < 2 ^ (E + scale)) by (apply pow2_pos; unfold scale; lia).
    nia. }
  destruct (binary_round_lower s M E ltac:(unfold scale; lia) 1 (-1074) eq_refl Hv)
    as [H|(m & e & H & _)]; rewrite H; discriminate.
Qed.

Lemma mul_is_number (x y : number) :
  is_number x -> is_number y -> is_number (mul x y).
Proof.
  intros Hx Hy. unfold is_number in *.
  destruct x as [sx|sx| |sx mx ex], y as [sy|sy| |sy my ey]; try reflexivity.
  unfold mul, SFmul. simpl in Hx, Hy.
  destruct (mul_no_shift mx my ex ey Hx Hy) as [Hpre HE].
  destruct (binary_round_aux_cases (xorb sx sy) (mx * my) (ex + ey) Hpre)
    as [[_ H]|[(m & e & H & Hb & _)|[H _]]]; rewrite H;
    [reflexivity | exact Hb | reflexivity].
Qed.

(** The sum of two finite binary64 values, before rounding. *)
Lemma add_finite_signed (sx sy : bool) (mx my : positive) (ex ey : Z) :
  add (S754_finite sx mx ex) (S754_finite sy my ey)
  = binary_normalize prec emax
      (cond_Zopp sx (Zpos (fst (shl_align mx ex (Z.min ex ey))))
       + cond_Zopp sy (Zpos (fst (shl_align my ey (Z.min ex ey)))))
      (Z.min ex ey) false.
Proof. reflexivity. Qed.

Lemma add_is_number (x y : number) :
  is_number x -> is_number y -> is_number (add x y).
Proof.
  intros Hx Hy.
  destruct x as [sx|sx| |sx mx ex], y as [sy|sy| |sy my ey];
    try (destruct sx, sy; reflexivity); try reflexivity; try assumption.
  rewrite add_finite_signed.
  apply bounded_inv in Hx. apply bounded_inv in Hy.
  destruct Hx as (_ & Hex & _). destruct Hy as (_ & Hey & _).
  destruct (_ + _) as [|p|p]; simpl binary_normalize;
    [reflexivity | |]; apply binary_round_is_number; unfold scale; lia.
Qed.

Lemma add_not_negative_zero (x y : number) :
  is_number x -> is_number y -> x <> S754_zero true -> add x y <> S754_zero true.
Proof.
  intros Hx Hy Hnz.
  destruct x as [sx|sx| |sx mx ex], y as [sy|sy| |sy my ey];
    try (destruct sx, sy; discriminate); try discriminate;
    try (destruct sx; [congruence | destruct sy; discriminate]).
  rewrite add_finite_signed.
  apply bounded_inv in Hx. apply bounded_inv in Hy.
  destruct Hx as (_ & Hex & _). destruct Hy as (_ & Hey & _).
  destruct (_ + _) as [|p|p]; simpl binary_normalize;
    [discriminate | |]; apply binary_round_not_zero; lia.
Qed.

Lemma add_zero_r (x : number) : x <> S754_zero true -> add x zero = x.
Proof.
  intros Hnz. destruct x as [[|]|s| |s m e]; try reflexivity. congruence.
Qed.

Lemma getItemPrice_is_number (item : CartItem) :
  valid_item item -> is_number (getItemPrice item).
Proof.
  intros [Hq Hp]. unfold getItemPrice.
  destruct (find _ (printSizes item)) as [size|] eqn:Hf; [|reflexivity].
  apply mul_is_number; [|exact Hq].
  apply find_some in Hf. destruct Hf as [Hin _].
  rewrite Forall_forall in Hp. apply Hp. exact Hin.
Qed.

Lemma fold_add_is_number (items : list CartItem) (acc : number) :
  Forall valid_item items -> is_number acc -> acc <> S754_zero true ->
  let sum := fold_left (fun sum item => add sum (getItemPrice item)) items acc in
  is_number sum /\ sum <> S754_zero true.
Proof.
  intros H. revert acc. induction H as [|item items Hitem _ IH]; intros acc Hacc Hnz.
  - simpl. auto.
  - simpl. apply IH.
    + apply add_is_number; [exact Hacc | apply getItemPrice_is_number; exact Hitem].
    + apply add_not_negative_zero;
        [exact Hacc | apply getItemPrice_is_number; exact Hitem | exact Hnz].
Qed.

(** X9.  An item whose selected size is not listed adds nothing to the
    subtotal, wherever it stands in the cart, the items before it holding
    binary64 numbers. *)
Theorem unlisted_size_adds_nothing (before after : list CartItem) (item : CartItem) :
  Forall valid_item before ->
  (forall e, In e (printSizes item) -> label e <> selectedSize item) ->
  subtotal (before ++ item :: after) = subtotal (before ++ after).
Proof.
  intros Hvalid Hno. unfold subtotal. rewrite !fold_left_app. cbn [fold_left].
  destruct (fold_add_is_number before zero Hvalid eq_refl ltac:(discriminate))
    as [_ Hnz].
  assert (Hzero : getItemPrice item = zero)
    by (unfold getItemPrice; rewrite (find_no_match _ _ Hno); reflexivity).
  rewrite Hzero, add_zero_r by exact Hnz. reflexivity.
Qed.

Lemma unlisted_size_adds_nothing_witness :
  subtotal [photo "s1-a" "5x7" 2; photo "s1-b" "4x6" 3; photo "s1-c" "8x10" 1]
  = subtotal [photo "s1-a" "5x7" 2; photo "s1-c" "8x10" 1].
Proof.
  apply (unlisted_size_adds_nothing [photo "s1-a" "5x7" 2] [photo "s1-c" "8x10" 1]
           (photo "s1-b" "4x6" 3)).
  - repeat constructor.
  - simpl. intros e [<-|[<-|[]]]; simpl; discriminate.
Defined.

(** X10.  The subtotal of a cart of binary64 numbers is a binary64 value
    and never the negative zero. *)
Theorem subtotal_is_number (cartItems : list CartItem) :
  Forall valid_item cartItems ->
  is_number (subtotal cartItems) /\ subtotal cartItems <> S754_zero true.
Proof.
  intros H. apply (fold_add_is_number cartItems zero H); [reflexivity | discriminate].
Qed.

Lemma subtotal_is_number_witness :
  is_number (subtotal [photo "s1-a" "5x7" 2]) /\
  subtotal [photo "s1-a" "5x7" 2] <> S754_zero true.
Proof.
  apply subtotal_is_number. repeat constructor.
Defined.

(** ** The "-" button, pressed again and again *)

Lemma decreaseQuantity_keeps (q : number) :
  is_number q -> le (of_Z 1) q = true ->
  is_number (Math_max (of_Z 1) (sub q (of_Z 1))) /\
  le (of_Z 1) (Math_max (of_Z 1) (sub q (of_Z 1))) = true.
Proof.
  intros Hv Hq. rewrite of_Z_1 in *.
  assert (Hy : is_number (sub q (S754_finite false 4503599627370496 (-52))) /\
               sub q (S754_finite false 4503599627370496 (-52)) <> S754_nan).
  { destruct q as [s|s| |s m e]; try discriminate Hq.
    - destruct s; [discriminate Hq|]. split; [reflexivity | discriminate].
    - destruct s; [discriminate Hq|].
      apply bounded_inv in Hv. destruct Hv as (_ & He & _).
      destruct (sub_finite m 4503599627370496 e (-52) ltac:(lia) ltac:(lia))
        as (D & ez & HE & _ & ->).
      split; [|apply binary_normalize_not_nan; exact HE].
      destruct D as [|p|p]; simpl binary_normalize;
        [reflexivity | |]; apply binary_round_is_number; exact HE. }
  destruct Hy as [Hy1 Hy2]. split; [|apply Math_max_ge; exact Hy2].
  unfold Math_max.
  destruct (SFcompare (S754_finite false 4503599627370496 (-52))
              (sub q (S754_finite false 4503599627370496 (-52)))) as [[| |]|];
    [reflexivity | exact Hy1 | reflexivity | reflexivity].
Qed.

(** X6.  However often "-" is pressed on a quantity that is at least 1,
    the quantity stays at least 1.  On an integer quantity [n] with
    [1 <= n <= 2^53], [k] presses leave [max 1 (n - k)]; beyond the bound
    the difference rounds: at [2^54] every number of presses leaves
    [2^54]. *)
Theorem pressMinus_iterated (item : CartItem) (k : nat) :
  (is_number (quantity item) -> le (of_Z 1) (quantity item) = true ->
   is_number (quantity (Nat.iter k pressMinus item)) /\
   le (of_Z 1) (quantity (Nat.iter k pressMinus item)) = true) /\
  (forall n, 1 <= n <= 2 ^ 53 -> quantity item = of_Z n ->
             quantity (Nat.iter k pressMinus item) = of_Z (Z.max 1 (n - Z.of_nat k))) /\
  (quantity item = of_Z (2 ^ 54) ->
   quantity (Nat.iter k pressMinus item) = of_Z (2 ^ 54)).
Proof.
  split; [|split].
  - intros Hv Hq. induction k as [|k IH]; [split; assumption|].
    change (Nat.iter (S k) pressMinus item)
      with (pressMinus (Nat.iter k pressMinus item)).
    set (it := Nat.iter k pressMinus item) in *.
    unfold pressMinus, with_quantity, decreaseQuantity. cbn [quantity].
    apply decreaseQuantity_keeps; apply IH.
  - intros n Hn Hq. induction k as [|k IH].
    + simpl. rewrite Hq. f_equal. lia.
    + change (Nat.iter (S k) pressMinus item)
        with (pressMinus (Nat.iter k pressMinus item)).
      set (it := Nat.iter k pressMinus item) in *.
      unfold pressMinus, with_quantity, decreaseQuantity. cbn [quantity].
      rewrite IH, sub_one_integer by lia. f_equal. lia.
  - intros Hq. induction k as [|k IH]; [exact Hq|].
    change (Nat.iter (S k) pressMinus item)
      with (pressMinus (Nat.iter k pressMinus item)).
    set (it := Nat.iter k pressMinus item) in *.
    unfold pressMinus, with_quantity, decreaseQuantity. cbn [quantity].
    rewrite IH. vm_compute. reflexivity.
Qed.

Lemma pressMinus_iterated_witness :
  le (of_Z 1) (quantity (Nat.iter 5 pressMinus (photo "s1-a" "5x7" 3))) = true /\
  quantity (Nat.iter 5 pressMinus (photo "s1-a" "5x7" 3)) = of_Z 1 /\
  quantity (Nat.iter 5 pressMinus (photo "s1-a" "5x7" (2 ^ 54))) = of_Z (2 ^ 54).
Proof.
  split; [|split].
  - apply (proj1 (pressMinus_iterated (photo "s1-a" "5x7" 3) 5)); reflexivity.
  - apply (proj1 (proj2 (pressMinus_iterated (photo "s1-a" "5x7" 3) 5)) 3).
    + vm_compute. split; discriminate.
    + reflexivity.
  - apply (proj2 (proj2 (pressMinus_iterated (photo "s1-a" "5x7" (2 ^ 54)) 5))).
    reflexivity.
Defined.

(** ** The rendering *)

Lemma toFixed_2_returns (x : number) : exists s, toFixed x 2 = Normal s.
Proof.
  unfold toFixed. simpl.
  destruct x as [s|s| |s m e]; try (eexists; reflexivity).
  destruct (ge_1e21 m e); eexists; reflexivity.
Qed.

Lemma Array_map_toFixed (cartItems : list CartItem) :
  exists prices,
    Array_map (fun item => toFixed (getItemPrice item) 2) cartItems = Normal prices /\
    List.length prices = List.length cartItems.
Proof.
  induction cartItems as [|item rest (prices & Hp & Hlen)].
  - exists []. split; reflexivity.
  - destruct (toFixed_2_returns (getItemPrice item)) as [s Hs].
    exists (s :: prices). cbn [Array_map]. rewrite Hs, Hp. simpl. auto.
Qed.

(** X11.  The page renders without throwing.  The empty cart gives the
    empty-cart notice; any other cart gives an invoice with one price for
    each item, and its shipping line always reads 5.99: the "0.00" of
    line 167 is never shown. *)
Theorem Cart_renders (cartItems : list CartItem) :
  exists view, Cart cartItems = Normal view /\
    (cartItems = [] -> view = EmptyCartView) /\
    (cartItems <> [] ->
     exists invoice, view = InvoiceView invoice /\
       shown_count invoice = List.length cartItems /\
       List.length (shown_prices invoice) = List.length cartItems /\
       shown_shipping invoice = Str_Fixed false 599 2).
Proof.
  unfold Cart.
  destruct (tax_returns cartItems) as [t ->].
  destruct (total_returns cartItems) as [tot ->]. cbn [bind].
  destruct cartItems as [|item rest].
  - exists EmptyCartView. split; [reflexivity|]. split; [reflexivity | congruence].
  - cbn [List.length Nat.eqb Nat.ltb Nat.leb].
    destruct (Array_map_toFixed (item :: rest)) as (prices & -> & Hlen).
    destruct (toFixed_2_returns (subtotal (item :: rest))) as [s1 ->].
    destruct (toFixed_2_returns t) as [s2 ->].
    destruct (toFixed_2_returns tot) as [s3 ->].
    replace (toFixed SHIPPING 2) with (Normal (Str_Fixed false 599 2))
      by (vm_compute; reflexivity).
    cbn [bind]. eexists. split; [reflexivity|]. split; [discriminate|].
    intros _. eexists. split; [reflexivity|]. cbn. auto.
Qed.

Lemma Cart_renders_witness :
  exists view, Cart [photo "s1-a" "5x7" 2] = Normal view /\
    exists invoice, view = InvoiceView invoice /\
                    shown_shipping invoice = Str_Fixed false 599 2.
Proof.
  destruct (Cart_renders [photo "s1-a" "5x7" 2]) as (view & Hv & _ & Hne).
  exists view. split; [exact Hv|].
  destruct (Hne ltac:(discriminate)) as (invoice & Hi & _ & _ & Hs).
  exists invoice. auto.
Defined.

(** ** Signs *)

Lemma shr_1_nonneg (mrs : shr_record) : 0 <= shr_m mrs -> 0 <= shr_m (shr_1 mrs).
Proof.
  destruct mrs as [m r s]. cbn [shr_m]. intros Hm.
  rewrite shr_1_div2 by exact Hm. cbn [shr_m]. apply Z.div_pos; lia.
Qed.

Lemma shr_nonneg (mrs : shr_record) (e n : Z) :
  0 <= shr_m mrs -> 0 <= shr_m (fst (shr mrs e n)).
Proof.
  intros Hm. unfold shr. destruct n as [|p|p]; cbn [fst]; try exact Hm.
  rewrite iter_pos_nat. induction (Pos.to_nat p) as [|k IH]; [exact Hm|].
  cbn [Nat.iter nat_rect]. apply shr_1_nonneg. exact IH.
Qed.

Lemma shr_record_of_loc_m (m : Z) (l : location) : shr_m (shr_record_of_loc m l) = m.
Proof. destruct l as [|[| |]]; reflexivity. Qed.

Lemma round_nearest_even_nonneg (m : Z) (l : location) :
  0 <= m -> 0 <= round_nearest_even m l.
Proof.
  intros Hm. destruct l as [|[| |]]; cbn [round_nearest_even]; try lia.
  destruct (Z.even m); lia.
Qed.

(** A rounding of a non-negative mantissa is a zero, an infinity or a
    finite number, of the sign it was given. *)
Lemma binary_round_aux_sign (s : bool) (m e : Z) (l : location) :
  0 <= m ->
  let r := binary_round_aux prec emax s m e l in
  r = S754_zero s \/ r = S754_infinity s \/ exists m' e', r = S754_finite s m' e'.
Proof.
  intros Hm. unfold binary_round_aux, shr_fexp.
  set (sh1 := shr (shr_record_of_loc m l) e _).
  rewrite (surjective_pairing sh1).
  set (m1 := round_nearest_even _ _).
  assert (Hm1 : 0 <= m1).
  { apply round_nearest_even_nonneg. apply shr_nonneg.
    rewrite shr_record_of_loc_m. exact Hm. }
  set (sh2 := shr (shr_record_of_loc m1 loc_Exact) (snd sh1) _).
  rewrite (surjective_pairing sh2).
  assert (Hm2 : 0 <= shr_m (fst sh2)).
  { apply shr_nonneg. rewrite shr_record_of_loc_m. exact Hm1. }
  destruct (shr_m (fst sh2)) as [|p|p]; [left; reflexivity | | lia].
  cbv zeta. right. destruct (snd sh2 <=? emax - prec); [right; eauto | left; reflexivity].
Qed.

(** [0 <= x] holds of the zeros and of the finite and infinite numbers of
    positive sign. *)
Lemma le_zero_cases (x : number) :
  le zero x = true <->
  (exists s, x = S754_zero s) \/ x = S754_infinity false \/
  exists m e, x = S754_finite false m e.
Proof.
  split.
  - destruct x as [s|[|]| |[|] m e]; try discriminate; intros _; eauto.
  - intros [[s ->]|[->|(m & e & ->)]]; reflexivity.
Qed.

Lemma le_zero_round_aux (m e : Z) (l : location) :
  0 <= m -> le zero (binary_round_aux prec emax false m e l) = true.
Proof.
  intros Hm. apply le_zero_cases.
  destruct (binary_round_aux_sign false m e l Hm) as [H|[H|H]]; eauto.
Qed.

Lemma le_zero_mul (x y : number) :
  le zero x = true -> (exists m e, y = S754_finite false m e) ->
  le zero (mul x y) = true.
Proof.
  intros Hx (my & ey & ->). apply le_zero_cases in Hx.
  destruct Hx as [[s ->]|[->|(m & e & ->)]]; try reflexivity.
  unfold mul, SFmul. apply le_zero_round_aux. lia.
Qed.

Lemma le_zero_add (x y : number) :
  le zero x = true -> le zero y = true -> le zero (add x y) = true.
Proof.
  intros Hx Hy. apply le_zero_cases in Hx. apply le_zero_cases in Hy.
  destruct Hx as [[sx ->]|[->|(mx & ex & ->)]];
    destruct Hy as [[sy ->]|[->|(my & ey & ->)]];
    try reflexivity; try (destruct sx; try destruct sy; reflexivity).
  rewrite add_finite_signed. cbn [cond_Zopp].
  change (Zpos ?a + Zpos ?b) with (Zpos (a + b)). cbn [binary_normalize].
  unfold binary_round.
  rewrite (surjective_pairing (shl_align _ _ _)).
  apply le_zero_round_aux. lia.
Qed.

Lemma le_zero_of_decimal (n : Z) (f : nat) : le zero (of_decimal false n f) = true.
Proof.
  destruct n as [|p|p]; try reflexivity.
  unfold of_decimal, SFdiv.
  set (core := SFdiv_core_binary prec emax (Zpos p) 0 _ 0).
  assert (Hq : 0 <= fst (fst core)).
  { unfold core, SFdiv_core_binary.
    set (m' := match _ with Z0 => Zpos p | Zpos _ => _ | Zneg _ => 0 end).
    assert (Hm' : 0 <= m').
    { unfold m'. destruct (_ - _) as [|q|q]; try lia. apply Z.shiftl_nonneg. lia. }
    set (den := Zpos (Z.to_pos (10 ^ Z.of_nat f))).
    pose proof (Z_div_mod m' den ltac:(unfold den; lia)) as Hdm.
    destruct (Z.div_eucl m' den) as [q r]. cbn [fst].
    destruct Hdm as [Heq Hr]. unfold den in *. nia. }
  destruct core as [[mz ez] lz]. cbn [fst] in Hq. cbn [xorb].
  apply le_zero_round_aux. exact Hq.
Qed.

Lemma le_zero_round2 (x : number) :
  le zero x = true -> exists y, round2 x = Normal y /\ le zero y = true.
Proof.
  intros Hx. apply le_zero_cases in Hx.
  destruct Hx as [[s ->]|[->|(m & e & ->)]].
  - exists zero. split; reflexivity.
  - exists (S754_infinity false). split; reflexivity.
  - rewrite round2_finite. eexists. split; [reflexivity|].
    destruct (ge_1e21 m e); [reflexivity | apply le_zero_of_decimal].
Qed.

(** X12.  When the subtotal is not negative (and not NaN), neither are
    the tax and the total. *)
Theorem tax_and_total_not_negative (cartItems : list CartItem) :
  le zero (subtotal cartItems) = true ->
  exists t tot, tax cartItems = Normal t /\ total cartItems = Normal tot /\
                le zero t = true /\ le zero tot = true.
Proof.
  intros Hs. unfold total, tax.
  assert (Hrate : exists m e, TAX_RATE = S754_finite false m e)
    by (eexists; eexists; vm_compute; reflexivity).
  destruct (le_zero_round2 _ (le_zero_mul _ _ Hs Hrate)) as (t & Ht & Htpos).
  rewrite Ht. cbn [bind].
  assert (Hship : le zero (shipping cartItems) = true)
    by (unfold shipping; destruct (0 <? List.length cartItems)%nat; reflexivity).
  destruct (le_zero_round2 _ (le_zero_add _ _ (le_zero_add _ _ Hs Htpos) Hship))
    as (tot & Htot & Htotpos).
  exists t, tot. auto.
Qed.

Lemma tax_and_total_not_negative_witness :
  exists t tot, tax [photo "s1-a" "5x7" 2] = Normal t /\
                total [photo "s1-a" "5x7" 2] = Normal tot /\
                le zero t = true /\ le zero tot = true.
Proof.
  apply tax_and_total_not_negative. vm_compute. reflexivity.
Defined.

Lemma subtotal_all_unlisted (cartItems : list CartItem) :
  Forall (fun item => forall e, In e (printSizes item) -> label e <> selectedSize item)
         cartItems ->
  subtotal cartItems = zero.
Proof.
  unfold subtotal. induction 1 as [|item rest Hno _ IH]; [reflexivity|].
  cbn [fold_left]. unfold getItemPrice at 2. rewrite (find_no_match _ _ Hno). exact IH.
Qed.

(** X13.  A cart in which no item has its selected size listed is still
    billed the shipping fee: subtotal 0, tax 0, shipping 5.99, total
    5.99. *)
Theorem all_unlisted_billed_shipping (cartItems : list CartItem) :
  cartItems <> [] ->
  Forall (fun item => forall e, In e (printSizes item) -> label e <> selectedSize item)
         cartItems ->
  summarize cartItems =
    Normal {| summary_subtotal := zero; summary_tax := zero;
              summary_shipping := of_decimal false 599 2;
              summary_total := of_decimal false 599 2 |}.
Proof.
  intros Hne Hall. unfold summarize, total, tax, shipping.
  rewrite (subtotal_all_unlisted cartItems Hall).
  destruct cartItems as [|item rest]; [congruence|].
  vm_compute. reflexivity.
Qed.

Lemma all_unlisted_billed_shipping_witness :
  summarize [photo "s1-b" "4x6" 3] =
    Normal {| summary_subtotal := zero; summary_tax := zero;
              summary_shipping := of_decimal false 599 2;
              summary_total := of_decimal false 599 2 |}.
Proof.
  apply all_unlisted_billed_shipping; [discriminate|].
  repeat constructor. simpl. intros e [<-|[<-|[]]]; simpl; discriminate.
Defined.

(** ** Rounding a quotient *)

Lemma rnd_cases (N K : Z) :
  0 < K ->
  exists q r, N = K * q + r /\ 0 <= r < K /\
    ((2 * r < K /\ rnd N K = q) \/
     (2 * r = K /\ (rnd N K = q \/ rnd N K = q + 1)) \/
     (K < 2 * r /\ rnd N K = q + 1)).
Proof.
  intros HK. exists (N / K), (N mod K).
  split; [apply Z.div_mod; lia|].
  split; [apply Z.mod_pos_bound; lia|].
  unfold rnd.
  destruct (Z.compare_spec (2 * (N mod K)) K) as [H|H|H].
  - right. left. split; [exact H|]. destruct (Z.even _); auto.
  - left. auto.
  - right. right. auto.
Qed.

Lemma rnd_error (N K : Z) : 0 < K -> 2 * Z.abs (rnd N K * K - N) <= K.
Proof.
  intros HK. destruct (rnd_cases N K HK) as (q & r & HN & Hr & Hc).
  destruct Hc as [[? ->]|[[? [-> | ->]]|[? ->]]]; nia.
Qed.

Lemma rnd_ge (N K b : Z) : 0 < K -> b * K <= N -> b <= rnd N K.
Proof.
  intros HK H. destruct (rnd_cases N K HK) as (q & r & HN & Hr & Hc).
  destruct Hc as [[? ->]|[[? [-> | ->]]|[? ->]]]; nia.
Qed.

Lemma rnd_le (N K b : Z) : 0 < K -> N <= b * K -> rnd N K <= b.
Proof.
  intros HK H. destruct (rnd_cases N K HK) as (q & r & HN & Hr & Hc).
  destruct Hc as [[? ->]|[[? [-> | ->]]|[? ->]]]; nia.
Qed.

(** The location [new_location] gives to a remainder [r] of a division by
    an even [D], as the two bits of a shift record. *)
Lemma loc_of_remainder (D r q : Z) :
  Z.even D = true -> 0 < D -> 0 <= r < D ->
  round_nearest_even q (new_location D r) = rnd (D * q + r) D /\
  (shr_r (shr_record_of_loc q (new_location D r))
   || shr_s (shr_record_of_loc q (new_location D r)) = negb (r =? 0)).
Proof.
  intros Hev HD Hr. unfold new_location. rewrite Hev. unfold new_location_even, rnd.
  assert (Hq : (D * q + r) / D = q)
    by (rewrite Z.mul_comm, Z.div_add_l by lia; rewrite Z.div_small by lia; lia).
  assert (Hm : (D * q + r) mod D = r)
    by (rewrite Z.add_comm, Z.mul_comm, Z.mod_add by lia; apply Z.mod_small; lia).
  rewrite Hq, Hm.
  destruct (Z.eqb_spec r 0) as [->|Hr0].
  - cbn [round_nearest_even shr_record_of_loc shr_r shr_s orb negb].
    destruct (Z.compare_spec (2 * 0) D); try lia; auto.
  - destruct (Z.compare_spec (2 * r) D); cbn; auto.
Qed.

(** The record after [k >= 1] one-bit shifts of [q] with the bits [r0],
    [s0] of an earlier remainder. *)
Lemma iter_shr_1_from (q : Z) (r0 s0 : bool) (k : nat) :
  0 <= q ->
  Nat.iter (S k) shr_1 {| shr_m := q; shr_r := r0; shr_s := s0 |}
  = {| shr_m := q / 2 ^ Z.of_nat (S k);
       shr_r := Z.odd (q / 2 ^ (Z.of_nat (S k) - 1));
       shr_s := negb (q mod 2 ^ (Z.of_nat (S k) - 1) =? 0) || (r0 || s0) |}.
Proof.
  intros Hq. induction k as [|k IH].
  - cbn [Nat.iter nat_rect]. rewrite shr_1_div2 by exact Hq.
    change (Z.of_nat 1) with 1. change (1 - 1) with 0. change (2 ^ 0) with 1.
    rewrite Z.div_1_r, Z.mod_1_r. reflexivity.
  - change (Nat.iter (S (S k)) shr_1 ?x) with (shr_1 (Nat.iter (S k) shr_1 x)).
    rewrite IH. set (j := Z.of_nat (S k)).
    assert (Hj : 1 <= j) by (unfold j; lia).
    replace (Z.of_nat (S (S k))) with (j + 1) by (unfold j; lia).
    replace (j + 1 - 1) with j by lia.
    assert (Hh : 0 < 2 ^ (j - 1)) by (apply pow2_pos; lia).
    rewrite shr_1_div2 by (apply Z.div_pos; [lia | apply pow2_pos; lia]).
    f_equal.
    + rewrite (pow2_split j 1) by lia. rewrite Z.div_div by (try apply pow2_pos; lia).
      reflexivity.
    + replace (2 ^ j) with (2 ^ (j - 1) * 2)
        by (replace j with ((j - 1) + 1) at 2 by lia; rewrite Z.pow_add_r by lia; reflexivity).
      rewrite Z.rem_mul_r by lia.
      rewrite <- Z.bit0_odd, <- Z.bit0_mod.
      pose proof (Z.mod_pos_bound q (2 ^ (j - 1)) Hh) as Hlow.
      destruct (Z.testbit (q / 2 ^ (j - 1)) 0); cbn [Z.b2z];
        destruct (Z.eqb_spec (q mod 2 ^ (j - 1)) 0) as [H0|H0];
        match goal with |- context [?a =? 0] => destruct (Z.eqb_spec a 0) end;
        cbn; try reflexivity; try (exfalso; nia);
        destruct r0, s0; reflexivity.
Qed.

(** Shifting the quotient of a division by [k] bits and rounding is
    rounding the division by [D * 2^k]. *)
Lemma shr_rnd (D q r e k : Z) :
  Z.even D = true -> 0 < D -> 0 <= r < D -> 0 <= q -> 0 <= k ->
  let mrs := fst (shr (shr_record_of_loc q (new_location D r)) e k) in
  round_nearest_even (shr_m mrs) (loc_of_shr_record mrs) = rnd (D * q + r) (D * 2 ^ k)
  /\ snd (shr (shr_record_of_loc q (new_location D r)) e k) = e + k.
Proof.
  intros Hev HD Hr Hq Hk.
  destruct (loc_of_remainder D r q Hev HD Hr) as [H0 Hbits].
  destruct k as [|p|p]; [| |lia].
  - cbn [shr fst snd]. rewrite Z.add_0_r. change (2 ^ 0) with 1. rewrite Z.mul_1_r.
    split; [|reflexivity].
    rewrite <- H0. f_equal.
    + apply shr_record_of_loc_m.
    + destruct (new_location D r) as [|[| |]]; reflexivity.
  - cbn [shr fst snd]. split; [|reflexivity].
    rewrite iter_pos_nat. destruct (Pos2Nat.is_succ p) as [j Hj]. rewrite Hj.
    assert (Hrec : shr_record_of_loc q (new_location D r)
                   = {| shr_m := q;
                        shr_r := shr_r (shr_record_of_loc q (new_location D r));
                        shr_s := shr_s (shr_record_of_loc q (new_location D r)) |}).
    { destruct (new_location D r) as [|[| |]]; reflexivity. }
    rewrite Hrec, iter_shr_1_from by exact Hq. rewrite Hbits.
    rewrite <- Hj, positive_nat_Z.
    assert (Hn : 1 <= Zpos p) by lia. revert Hn. generalize (Zpos p). intros n Hn.
    cbn [shr_m]. unfold rnd.
    assert (Hh : 0 < 2 ^ (n - 1)) by (apply pow2_pos; lia).
    assert (H2 : 2 ^ n = 2 ^ (n - 1) * 2)
      by (replace n with ((n - 1) + 1) at 1 by lia; rewrite Z.pow_add_r by lia; reflexivity).
    assert (Hpn : 0 < 2 ^ n) by (apply pow2_pos; lia).
    (* quotient and remainder of D*q + r by D * 2^n *)
    assert (Hquot : (D * q + r) / (D * 2 ^ n) = q / 2 ^ n).
    { rewrite <- Z.div_div by lia.
      replace ((D * q + r) / D) with q; [reflexivity|].
      rewrite Z.mul_comm, Z.div_add_l by lia. rewrite (Z.div_small r D) by lia. lia. }
    assert (Hrem : (D * q + r) mod (D * 2 ^ n) = D * (q mod 2 ^ n) + r).
    { rewrite Z.rem_mul_r by lia.
      replace ((D * q + r) / D) with q
        by (rewrite Z.mul_comm, Z.div_add_l by lia; rewrite (Z.div_small r D) by lia; lia).
      replace ((D * q + r) mod D) with r
        by (rewrite Z.add_comm, Z.mul_comm, Z.mod_add by lia; symmetry; apply Z.mod_small; lia).
      ring. }
    rewrite Hquot, Hrem. rewrite H2 at 2 3. rewrite (Z.rem_mul_r q) by lia.
    rewrite <- Z.bit0_odd, <- Z.bit0_mod.
    pose proof (Z.mod_pos_bound q (2 ^ (n - 1)) Hh) as Hlow.
    generalize dependent (q mod 2 ^ (n - 1)). intros low Hlow.
    generalize (q / 2 ^ n). intros qn.
    generalize dependent (2 ^ (n - 1)). intros h Hh H2 Hlow.
    rewrite H2. clear H2 Hpn.
    destruct (Z.testbit (q / h) 0); cbn [Z.b2z];
      destruct (Z.eqb_spec low 0) as [Hl0|Hl0];
      destruct (Z.eqb_spec r 0) as [Hr0|Hr0];
      cbn [negb orb loc_of_shr_record round_nearest_even];
      match goal with |- context [?a ?= ?b] => destruct (Z.compare_spec a b) end;
      try reflexivity; try (exfalso; nia).
Qed.

Lemma binary_round_aux_loc_pack (s : bool) (D r : Z) (q : positive) (e : Z) :
  Z.even D = true -> 0 < D -> 0 <= r < D ->
  let e1 := fexp prec emax (Zpos (digits2_pos q) + e) in
  e <= e1 ->
  binary_round_aux prec emax s (Zpos q) e (new_location D r)
  = pack s (rnd (D * Zpos q + r) (D * 2 ^ (e1 - e))) e1
  /\ 0 <= rnd (D * Zpos q + r) (D * 2 ^ (e1 - e)) <= 2 ^ 53.
Proof.
  intros Hev HD Hr e1 Hpre.
  pose proof (digits2_pos_bounds q) as [Hlo Hhi].
  set (d := Zpos (digits2_pos q)) in *.
  assert (He1 : e1 = Z.max (d + e - 53) (-1074)) by reflexivity.
  set (n := e1 - e). assert (Hn : 0 <= n) by (unfold n; lia).
  pose proof (pow2_pos n Hn) as Hpn.
  set (N := D * Zpos q + r).
  assert (Hm1 : 0 <= rnd N (D * 2 ^ n) <= 2 ^ 53).
  { split.
    - apply rnd_ge; [nia | unfold N; nia].
    - apply rnd_le; [nia|].
      assert (H : 2 ^ d <= 2 ^ (53 + n)) by (apply Z.pow_le_mono_r; lia).
      rewrite (pow2_split 53 n) in H by lia.
      assert (Zpos q + 1 <= 2 ^ 53 * 2 ^ n) by lia.
      unfold N. nia. }
  split; [|exact Hm1].
  unfold binary_round_aux, shr_fexp. cbn [Zdigits2]. fold d. fold e1. fold n.
  destruct (shr_rnd D (Zpos q) r e n Hev HD Hr ltac:(lia) Hn) as [Hround Hsnd].
  rewrite (surjective_pairing (shr (shr_record_of_loc (Zpos q) (new_location D r)) e n)).
  rewrite Hround, Hsnd. fold N.
  replace (e + n) with e1 by (unfold n; lia).
  set (m1 := rnd N (D * 2 ^ n)) in *.
  destruct m1 as [|p1|p1] eqn:Hp1.
  - cbn [Zdigits2]. rewrite shr_nonpos by (rewrite fexp_eq; lia). reflexivity.
  - pose proof (digits2_pos_bounds p1) as [Hlo1 Hhi1].
    cbn [Zdigits2]. unfold pack.
    destruct (Z.ltb_spec (Zpos p1) (2 ^ 53)) as [Hlt|Hge].
    + assert (Zpos (digits2_pos p1) <= 53).
      { assert (Zpos (digits2_pos p1) - 1 < 53) by (apply pow2_lt_inv; lia). lia. }
      rewrite shr_nonpos by (rewrite fexp_eq; lia). reflexivity.
    + assert (Heq : Zpos p1 = 2 ^ 53) by lia.
      assert (Hd : Zpos (digits2_pos p1) = 54)
        by (apply digits2_pos_unique; rewrite Heq; simpl; lia).
      rewrite Hd.
      replace (fexp prec emax (54 + e1) - e1) with 1 by (rewrite fexp_eq; lia).
      injection Heq as ->. reflexivity.
  - lia.
Qed.

(** The number nearest to the decimal [p / 100], as a rounding. *)
Lemma of_decimal_2 (s : bool) (p : positive) :
  let sh := Z.max (60 - Zpos (digits2_pos p)) 0 in
  let N := Zpos p * 2 ^ sh in
  of_decimal s (Zpos p) 2
  = binary_round_aux prec emax s (N / 100) (- sh) (new_location 100 (N mod 100)).
Proof.
  intros sh N. unfold of_decimal, SFdiv, SFdiv_core_binary.
  change (Z.to_pos (10 ^ Z.of_nat 2)) with 100%positive.
  cbn [Zdigits2]. change (Zpos (digits2_pos 100)) with 7.
  set (d1 := Zpos (digits2_pos p)) in *.
  assert (Hd1 : 1 <= d1) by (unfold d1; lia).
  replace (Z.min (fexp prec emax (d1 + 0 - (7 + 0))) (0 - 0)) with (- sh)
    by (rewrite fexp_eq; unfold sh; lia).
  replace (0 - 0 - - sh) with sh by lia.
  assert (Hm' : match sh with
                | 0 => Zpos p
                | Zpos _ => Z.shiftl (Zpos p) sh
                | Zneg _ => 0
                end = N).
  { unfold N. destruct sh as [|k|k] eqn:Hsh.
    - change (2 ^ 0) with 1. lia.
    - rewrite Z.shiftl_mul_pow2 by lia. reflexivity.
    - unfold sh in Hsh. lia. }
  rewrite Hm'. unfold Z.div, Z.modulo.
  destruct (Z.div_eucl N 100) as [q r]. destruct s; reflexivity.
Qed.

Lemma nearest_scaled_unique (m : positive) (e : Z) (n : Z) :
  e < 0 ->
  2 * Z.abs (100 * Zpos m - n * 2 ^ (- e)) <= 100 -> 128 <= 2 ^ (- e) ->
  nearest_scaled m e 2 = n.
Proof.
  intros He Herr HT. unfold nearest_scaled.
  destruct (Z.leb_spec 0 e) as [|_]; [lia|].
  change (10 ^ Z.of_nat 2) with 100.
  set (T := 2 ^ (- e)) in *.
  symmetry. apply (Z.div_unique _ _ n (2 * Zpos m * 100 + T - 2 * T * n)); lia.
Qed.

Lemma nearest_scaled_small (m : positive) (e : Z) :
  Zpos m < 2 ^ 53 -> e <= -7 -> 0 <= nearest_scaled m e 2 < 100 * 2 ^ 46.
Proof.
  intros Hm He. unfold nearest_scaled.
  destruct (Z.leb_spec 0 e) as [|_]; [lia|].
  change (10 ^ Z.of_nat 2) with 100.
  assert (HT : 128 <= 2 ^ (- e)).
  { change 128 with (2 ^ 7). apply Z.pow_le_mono_r; lia. }
  set (T := 2 ^ (- e)) in *.
  split; [apply Z.div_pos; lia|].
  apply Z.div_lt_upper_bound; [lia|].
  change (2 ^ 53) with 9007199254740992 in Hm.
  change (2 ^ 46) with 70368744177664.
  destruct (Z.eq_dec T 128) as [->|Hne]; [lia|].
  assert (256 <= T).
  { destruct (Z.eq_dec e (-7)) as [->|He7]; [exfalso; apply Hne; reflexivity|].
    unfold T. change 256 with (2 ^ 8). apply Z.pow_le_mono_r; lia. }
  lia.
Qed.

Lemma nearest_scaled_close (m : positive) (e : Z) (n : Z) :
  e < 0 -> Z.abs (200 * Zpos m - 2 * n * 2 ^ (- e)) < 2 ^ (- e) ->
  nearest_scaled m e 2 = n.
Proof.
  intros He Herr. unfold nearest_scaled.
  destruct (Z.leb_spec 0 e) as [|_]; [lia|].
  change (10 ^ Z.of_nat 2) with 100.
  set (T := 2 ^ (- e)) in *.
  symmetry. apply (Z.div_unique _ _ n (2 * Zpos m * 100 + T - 2 * T * n)); lia.
Qed.

Lemma ge_1e21_small (m : positive) (e : Z) :
  e < 0 -> Zpos m <= 2 ^ 53 -> ge_1e21 m e = false.
Proof.
  intros He Hm. unfold ge_1e21. destruct (Z.leb_spec 0 e) as [|_]; [lia|].
  apply Z.leb_gt. assert (1 <= 2 ^ (- e)) by (pose proof (pow2_pos (- e)); lia).
  change (2 ^ 53) with 9007199254740992 in Hm.
  change (10 ^ 21) with 1000000000000000000000. lia.
Qed.

(** The number read from a decimal with two fraction digits, below
    [2^46], shows these very digits. *)
Lemma of_decimal_2_shown (s : bool) (p : positive) :
  Zpos p < 100 * 2 ^ 46 ->
  exists md ed,
    of_decimal s (Zpos p) 2 = S754_finite s md ed /\
    bounded prec emax md ed = true /\ ed < 0 /\
    ge_1e21 md ed = false /\ nearest_scaled md ed 2 = Zpos p.
Proof.
  intros Hp. rewrite of_decimal_2.
  pose proof (digits2_pos_bounds p) as [Hplo Hphi].
  set (d1 := Zpos (digits2_pos p)) in *.
  assert (Hd1 : 1 <= d1 <= 53).
  { split; [unfold d1; lia|].
    assert (d1 - 1 < 53); [|lia]. apply pow2_lt_inv; [lia|].
    change (2 ^ 46) with 70368744177664 in Hp.
    change (2 ^ 53) with 9007199254740992. lia. }
  replace (Z.max (60 - d1) 0) with (60 - d1) by lia.
  set (sh := 60 - d1). assert (Hsh : 7 <= sh) by (unfold sh; lia).
  set (N := Zpos p * 2 ^ sh).
  assert (HN : 2 ^ 59 <= N < 2 ^ 60).
  { unfold N. replace 59 with ((d1 - 1) + sh) by (unfold sh; lia).
    replace 60 with (d1 + sh) by (unfold sh; lia).
    rewrite !pow2_split by lia. pose proof (pow2_pos sh ltac:(lia)). nia. }
  pose proof (Z.div_mod N 100 ltac:(lia)) as Hdm.
  pose proof (Z.mod_pos_bound N 100 ltac:(lia)) as Hr.
  set (q := N / 100) in *. set (r := N mod 100) in *.
  assert (Hq : 2 ^ 52 <= q < 2 ^ 54).
  { change (2 ^ 59) with 576460752303423488 in HN.
    change (2 ^ 60) with 1152921504606846976 in HN.
    change (2 ^ 52) with 4503599627370496. change (2 ^ 54) with 18014398509481984. lia. }
  destruct q as [|qp|qp] eqn:Hqp; try (change (2 ^ 52) with 4503599627370496 in Hq; lia).
  pose proof (digits2_pos_bounds qp) as [Hqlo Hqhi].
  set (dq := Zpos (digits2_pos qp)) in *.
  assert (Hdq : 53 <= dq <= 54).
  { split.
    - assert (52 < dq); [|lia]. apply pow2_lt_inv; [unfold dq; lia | lia].
    - assert (dq - 1 < 54); [|lia]. apply pow2_lt_inv; [lia | lia]. }
  set (k := dq - 53). assert (Hk : 0 <= k <= 1) by (unfold k; lia).
  assert (He1 : fexp prec emax (dq + - sh) = k - sh) by (rewrite fexp_eq; unfold k; lia).
  destruct (binary_round_aux_loc_pack s 100 r qp (- sh) eq_refl ltac:(lia) Hr)
    as [Hbra Hm1]; [fold dq; rewrite He1; lia|].
  fold dq in Hbra, Hm1. rewrite He1 in Hbra, Hm1.
  replace (k - sh - - sh) with k in Hbra, Hm1 by lia.
  rewrite <- Hdm in Hbra, Hm1. rewrite Hbra. clear Hbra.
  set (m1 := rnd N (100 * 2 ^ k)) in *.
  pose proof (pow2_pos k ltac:(lia)) as Hpk.
  assert (Hm1lo : 2 ^ 52 <= m1).
  { apply rnd_ge; [lia|].
    assert (H : 2 ^ (52 + k) <= Zpos qp) by (replace (52 + k) with (dq - 1) by (unfold k; lia); lia).
    rewrite pow2_split in H by lia. nia. }
  (* the error of the rounding, at the scale of the result *)
  set (T := 2 ^ (sh - k)).
  assert (HT : 2 ^ sh = T * 2 ^ k)
    by (unfold T; rewrite <- pow2_split by lia; f_equal; lia).
  assert (Herr : 2 * Z.abs (100 * m1 - Zpos p * T) <= 100).
  { pose proof (rnd_error N (100 * 2 ^ k) ltac:(lia)) as H. fold m1 in H.
    unfold N in H. rewrite HT in H.
    replace (m1 * (100 * 2 ^ k) - Zpos p * (T * 2 ^ k))
      with ((100 * m1 - Zpos p * T) * 2 ^ k) in H by ring.
    rewrite Z.abs_mul, (Z.abs_eq (2 ^ k)) in H by lia. nia. }
  assert (Hshk : 8 <= sh \/ k = 0).
  { destruct (Z.eq_dec k 0) as [|Hk1]; [right; assumption|left].
    assert (Hk1' : k = 1) by lia.
    destruct (Z_lt_ge_dec sh 8) as [Hlt|]; [exfalso|lia].
    assert (sh = 7) by lia.
    assert (H53 : 2 ^ 53 <= Zpos qp).
    { replace 53 with (dq - 1) by (unfold k in Hk1'; lia). exact Hqlo. }
    unfold N in Hdm. rewrite H in Hdm. change (2 ^ 7) with 128 in Hdm.
    change (2 ^ 46) with 70368744177664 in Hp.
    change (2 ^ 53) with 9007199254740992 in H53. lia. }
  assert (HT128 : 128 <= T).
  { unfold T. change 128 with (2 ^ 7). apply Z.pow_le_mono_r; lia. }
  unfold pack. destruct m1 as [|p1|p1] eqn:Hp1;
    try (change (2 ^ 52) with 4503599627370496 in Hm1lo; lia).
  destruct (Z.ltb_spec (Zpos p1) (2 ^ 53)) as [Hlt|Hge].
  - destruct (Z.leb_spec (k - sh) 971) as [_|]; [|lia].
    exists p1, (k - sh). split; [reflexivity|].
    split; [apply bounded_intro; lia|]. split; [lia|].
    split; [apply ge_1e21_small; lia|].
    apply nearest_scaled_close; [lia|].
    replace (- (k - sh)) with (sh - k) by lia. fold T. lia.
  - assert (Heq : Zpos p1 = 2 ^ 53) by lia.
    destruct (Z.leb_spec (k - sh + 1) 971) as [_|]; [|lia].
    rewrite Heq. change (2 ^ 53 / 2) with (2 ^ 52).
    (* the value 2^53 * 2^(k - sh) is not below 2^46 unless sh - k >= 8 *)
    assert (Hsk : 8 <= sh - k).
    { destruct (Z_lt_ge_dec (sh - k) 8) as [Hlt8|]; [exfalso|lia].
      assert (HT7 : T = 128) by (unfold T; replace (sh - k) with 7 by lia; reflexivity).
      rewrite Heq, HT7 in Herr.
      change (2 ^ 46) with 70368744177664 in Hp.
      change (2 ^ 53) with 9007199254740992 in Herr. lia. }
    exists (Z.to_pos (2 ^ 52)), (k - sh + 1). split; [reflexivity|].
    split; [apply bounded_intro; simpl; lia|]. split; [lia|].
    split; [apply ge_1e21_small; simpl; lia|].
    apply nearest_scaled_close; [lia|].
    replace (- (k - sh + 1)) with (sh - k - 1) by lia.
    assert (HT2 : T = 2 * 2 ^ (sh - k - 1)).
    { unfold T. replace (sh - k) with (1 + (sh - k - 1)) at 1 by lia.
      rewrite pow2_split by lia. reflexivity. }
    assert (64 <= 2 ^ (sh - k - 1)) by lia.
    change (Zpos (Z.to_pos (2 ^ 52))) with (2 ^ 52).
    rewrite Heq in Herr. change (2 ^ 53) with (2 * 2 ^ 52) in Herr.
    rewrite HT2 in Herr.
    generalize dependent (2 ^ (sh - k - 1)). generalize (2 ^ 52).
    clear. intros. lia.
Qed.

(** X14.  A binary64 amount below [2^46] is shown, after [+(x).toFixed(2)],
    with the very cents it was rounded to: showing the rounded number
    gives the string the rounding went through (a "-0.00" is shown as
    "0.00"). *)
Theorem rounded_amount_shown_again (s : bool) (m : positive) (e : Z) :
  bounded prec emax m e = true -> e <= -7 ->
  exists n,
    toFixed (S754_finite s m e) 2 = Normal (Str_Fixed s n 2) /\
    round2 (S754_finite s m e) = Normal (ToNumber (Str_Fixed s n 2)) /\
    toFixed (ToNumber (Str_Fixed s n 2)) 2
    = Normal (Str_Fixed (s && negb (n =? 0)) n 2).
Proof.
  intros Hb He. pose proof (bounded_inv m e Hb) as (Hm & _ & _).
  pose proof (nearest_scaled_small m e Hm He) as Hn.
  assert (Hge : ge_1e21 m e = false) by (apply ge_1e21_small; lia).
  exists (nearest_scaled m e 2).
  assert (Hfix : toFixed (S754_finite s m e) 2
                 = Normal (Str_Fixed s (nearest_scaled m e 2) 2)).
  { unfold toFixed. cbn [Z.ltb Z.compare orb]. change (Z.to_nat 2) with 2%nat.
    rewrite Hge. reflexivity. }
  split; [exact Hfix|]. split; [unfold round2; rewrite Hfix; reflexivity|].
  cbn [ToNumber].
  destruct (nearest_scaled m e 2) as [|p|p] eqn:Hp; [| |lia].
  - rewrite andb_false_r. reflexivity.
  - cbn [Z.eqb negb]. rewrite andb_true_r.
    destruct (of_decimal_2_shown s p ltac:(lia)) as (md & ed & -> & _ & Hed & Hge' & Hns).
    unfold toFixed. cbn [Z.ltb Z.compare orb]. change (Z.to_nat 2) with 2%nat.
    rewrite Hge', Hns. reflexivity.
Qed.

Lemma rounded_amount_shown_again_witness :
  exists n,
    toFixed (of_decimal false 1005 3) 2 = Normal (Str_Fixed false n 2) /\
    round2 (of_decimal false 1005 3) = Normal (ToNumber (Str_Fixed false n 2)) /\
    toFixed (ToNumber (Str_Fixed false n 2)) 2
    = Normal (Str_Fixed (false && negb (n =? 0)) n 2).
Proof.
  apply (rounded_amount_shown_again false 4526117625507348 (-52)).
  - reflexivity.
  - vm_compute. discriminate.
Defined.
